(** * Creem webhook pipeline: signature verification, parsing, dispatch

    A shallow embedding of [src/unnamed/part_001] (the webhooks resource of
    the Creem SDK) together with the parts of the JavaScript runtime it
    calls: UTF-16 strings, [Buffer.from], [crypto.createHmac("sha256")],
    [crypto.timingSafeEqual], [JSON.parse], property lookup and object
    spread; and of the API client around it: [createRequest] and
    [createCreem] of [src/request.ts] and the subscriptions resource of
    [src/unnamed/part_002], over a platform ([URL], [fetch]) that is a
    parameter. *)

From Stdlib Require Import NArith String Ascii DecimalString.
From stdpp Require Import gmap list fin_maps.

Set Warnings "-register-all".
Local Open Scope N_scope.

(** ** JavaScript strings and byte buffers *)

(** A JavaScript string is a sequence of UTF-16 code units; a [Buffer] is a
    sequence of octets.  Both are lists of [N]. *)
Abbreviation jsstring := (list N).
Abbreviation bytes := (list N).

(** [js "abc"] is the JavaScript string literal ["abc"] (ASCII text only). *)
Fixpoint js (s : string) : jsstring :=
  match s with
  | EmptyString => []
  | String c rest => N_of_ascii c :: js rest
  end.

Definition is_high_surrogate (c : N) : bool := (0xD800 <=? c) && (c <=? 0xDBFF).
Definition is_low_surrogate (c : N) : bool := (0xDC00 <=? c) && (c <=? 0xDFFF).

(** UTF-8 encoding of one Unicode scalar value. *)
Definition utf8_of_code_point (cp : N) : bytes :=
  if cp <? 0x80 then [cp]
  else if cp <? 0x800 then [0xC0 + cp / 0x40; 0x80 + cp mod 0x40]
  else if cp <? 0x10000 then
    [0xE0 + cp / 0x1000; 0x80 + (cp / 0x40) mod 0x40; 0x80 + cp mod 0x40]
  else
    [0xF0 + cp / 0x40000; 0x80 + (cp / 0x1000) mod 0x40;
     0x80 + (cp / 0x40) mod 0x40; 0x80 + cp mod 0x40].

(** U+FFFD, which replaces a lone surrogate. *)
Definition replacement_utf8 : bytes := [0xEF; 0xBF; 0xBD].

(** [Buffer.from(s)] for a string [s]: its UTF-8 encoding.  A surrogate
    pair encodes the supplementary code point; an unpaired surrogate is
    replaced by U+FFFD. *)
Fixpoint Buffer_from (s : jsstring) : bytes :=
  match s with
  | [] => []
  | c :: rest =>
      if is_high_surrogate c then
        match rest with
        | d :: rest' =>
            if is_low_surrogate d then
              utf8_of_code_point (0x10000 + (c - 0xD800) * 0x400 + (d - 0xDC00))
                ++ Buffer_from rest'
            else replacement_utf8 ++ Buffer_from rest
        | [] => replacement_utf8
        end
      else if is_low_surrogate c then replacement_utf8 ++ Buffer_from rest
      else utf8_of_code_point c ++ Buffer_from rest
  end.

(** ** [crypto]: SHA-256 (FIPS 180-4) and HMAC (RFC 2104) *)

Module SHA256.

Definition mask32 : N := 0xFFFFFFFF.
Definition add32 (a b : N) : N := N.land (a + b) mask32.
Definition rotr (n x : N) : N :=
  N.lor (N.shiftr x n) (N.land (N.shiftl x (32 - n)) mask32).
Definition not32 (x : N) : N := N.lxor x mask32.

Definition Ch (x y z : N) : N := N.lxor (N.land x y) (N.land (not32 x) z).
Definition Maj (x y z : N) : N :=
  N.lxor (N.lxor (N.land x y) (N.land x z)) (N.land y z).
Definition Sigma0 (x : N) : N := N.lxor (N.lxor (rotr 2 x) (rotr 13 x)) (rotr 22 x).
Definition Sigma1 (x : N) : N := N.lxor (N.lxor (rotr 6 x) (rotr 11 x)) (rotr 25 x).
Definition sigma0 (x : N) : N := N.lxor (N.lxor (rotr 7 x) (rotr 18 x)) (N.shiftr x 3).
Definition sigma1 (x : N) : N := N.lxor (N.lxor (rotr 17 x) (rotr 19 x)) (N.shiftr x 10).

(** The first 64 primes. *)
Definition is_prime (n : nat) : bool :=
  forallb (fun d => negb (n mod d =? 0)%nat) (seq 2 (n - 2)).

Definition primes : list N := N.of_nat <$> filter (fun n => is_prime n) (seq 2 310).

(** The integer cube root below [2 ^ 36], found bit by bit. *)
Definition cube_root (x : N) : N :=
  fold_left (fun r b => let r' := r + 2 ^ N.of_nat b in
                        if r' * r' * r' <=? x then r' else r)
            (rev (seq 0 36)) 0.

(** The round constants: the first 32 bits of the fractional parts of the
    cube roots of the first 64 primes. *)
Definition K : list N :=
  (fun p => N.land (cube_root (p * 2 ^ 96)) mask32) <$> primes.

(** The initial hash value: the first 32 bits of the fractional parts of
    the square roots of the first 8 primes. *)
Definition H0 : list N :=
  (fun p => N.land (N.sqrt (p * 2 ^ 64)) mask32) <$> take 8 primes.

(** Big-endian octets of a word, most significant first. *)
Fixpoint be_bytes (n : nat) (x : N) : bytes :=
  match n with
  | O => []
  | S n' => N.land (N.shiftr x (8 * N.of_nat n')) 0xFF :: be_bytes n' x
  end.

Definition be_word (b : bytes) : N :=
  fold_left (fun acc x => acc * 256 + x) b 0.

(** [chunks size n l]: the first [n] consecutive pieces of [size] items. *)
Fixpoint chunks {A} (size n : nat) (l : list A) : list (list A) :=
  match n with
  | O => []
  | S n' => take size l :: chunks size n' (drop size l)
  end.

Definition pad (msg : bytes) : bytes :=
  let len := length msg in
  let zeros := ((64 - (len + 9) mod 64) mod 64)%nat in
  msg ++ [0x80] ++ replicate zeros 0 ++ be_bytes 8 (8 * N.of_nat len).

(** One step of the message schedule on the reversed list of words. *)
Definition schedule_step (w_rev : list N) : list N :=
  let at_ i := nth i w_rev 0 in
  add32 (add32 (sigma1 (at_ 1%nat)) (at_ 6%nat))
        (add32 (sigma0 (at_ 14%nat)) (at_ 15%nat)) :: w_rev.

Definition schedule (block : bytes) : list N :=
  let w16 := map be_word (chunks 4 16 block) in
  rev (Nat.iter 48 schedule_step (rev w16)).

Definition round (st : list N) (kw : N * N) : list N :=
  match st with
  | [a; b; c; d; e; f; g; h] =>
      let t1 := add32 (add32 (add32 h (Sigma1 e)) (add32 (Ch e f g) kw.1)) kw.2 in
      let t2 := add32 (Sigma0 a) (Maj a b c) in
      [add32 t1 t2; a; b; c; add32 d t1; e; f; g]
  | _ => st
  end.

Definition compress (h : list N) (block : bytes) : list N :=
  zip_with add32 h (fold_left round (zip K (schedule block)) h).

Definition digest (msg : bytes) : bytes :=
  let padded := pad msg in
  let blocks := chunks 64 (length padded / 64) padded in
  concat (map (be_bytes 4) (fold_left compress blocks H0)).

End SHA256.

(** [crypto.createHmac("sha256", key).update(msg).digest()] on octets. *)
Definition hmac_sha256 (key msg : bytes) : bytes :=
  let key' := if (64 <? length key)%nat then SHA256.digest key else key in
  let block := key' ++ replicate (64 - length key') 0 in
  let inner := SHA256.digest (map (N.lxor 0x36) block ++ msg) in
  SHA256.digest (map (N.lxor 0x5c) block ++ inner).

(** [digest("hex")]: two lowercase hexadecimal digits per octet. *)
Definition hex_digit (n : N) : N :=
  if n <? 10 then 48 + n else 87 + n.

Definition hex_encode (b : bytes) : jsstring :=
  flat_map (fun x => [hex_digit (x / 16); hex_digit (x mod 16)]) b.

(** ** JavaScript values *)

(** The values that [JSON.parse] builds, plus [undefined] (the result of
    reading a property that is absent).  A number is kept as its JSON
    numeral: the double it denotes is a function of the numeral, and the
    code below only tests its type and passes it on.  An object is a finite
    map from property names to values. *)
Inductive JSValue : Type :=
| JUndefined
| JNull
| JBool (b : bool)
| JNumber (numeral : jsstring)
| JString (s : jsstring)
| JArray (elems : list JSValue)
| JObject (props : gmap jsstring JSValue).

(** The [typeof] operator. *)
Definition typeof (v : JSValue) : jsstring :=
  match v with
  | JUndefined => js "undefined"
  | JNull => js "object"
  | JBool _ => js "boolean"
  | JNumber _ => js "number"
  | JString _ => js "string"
  | JArray _ => js "object"
  | JObject _ => js "object"
  end.

(** A numeral whose mantissa has no nonzero digit denotes zero.  (So does
    one that underflows; the guards that use [truthy] give the same answer
    for every number, zero or not.) *)
Fixpoint mantissa_is_zero (numeral : jsstring) : bool :=
  match numeral with
  | [] => true
  | c :: rest =>
      if (c =? 101) || (c =? 69) then true
      else if (49 <=? c) && (c <=? 57) then false
      else mantissa_is_zero rest
  end.

(** [ToBoolean]: the values for which [!v] is [false]. *)
Definition truthy (v : JSValue) : bool :=
  match v with
  | JUndefined | JNull => false
  | JBool b => b
  | JNumber numeral => negb (mantissa_is_zero numeral)
  | JString s => negb (bool_decide (s = []))
  | JArray _ | JObject _ => true
  end.

(** Property read [v.name], for names that are neither an array index,
    [length], nor a member of [Object.prototype] or [Array.prototype]: an
    array or a primitive has no such property and an object has it only as
    an own property.  The names read below are of this kind ([eventType],
    [id], [created_at], [object], and the fields of a handler's
    argument). *)
Definition get (v : JSValue) (name : jsstring) : JSValue :=
  match v with
  | JObject props => default JUndefined (props !! name)
  | _ => JUndefined
  end.

(** The [in] operator, for the same names. *)
Definition has_property (name : jsstring) (v : JSValue) : bool :=
  match v with
  | JObject props => bool_decide (is_Some (props !! name))
  | _ => false
  end.

(** Decimal name of an array index. *)
Definition index_key (i : nat) : jsstring :=
  js (NilEmpty.string_of_uint (Nat.to_uint i)).

(** The own enumerable properties that the spread [...v] copies: those of
    an object; the indexed elements of an array; the indexed code units of a
    string; none for the other primitives. *)
Definition own_enumerable (v : JSValue) : gmap jsstring JSValue :=
  match v with
  | JObject props => props
  | JArray elems => list_to_map (imap (fun i x => (index_key i, x)) elems)
  | JString s => list_to_map (imap (fun i c => (index_key i, JString [c])) s)
  | _ => ∅
  end.

(** The object literal [{ k1: v1, ..., ...v }]: the listed properties are
    defined first and every own enumerable property of [v] is then
    assigned, replacing a listed property of the same name. *)
Definition object_spread (listed : list (jsstring * JSValue)) (v : JSValue)
  : JSValue :=
  JObject (own_enumerable v ∪ list_to_map (reverse listed)).

(** ** [JSON.parse] (ECMA-404 grammar) *)

Module JSON.

Inductive Token :=
| TLBrace | TRBrace | TLBracket | TRBracket | TColon | TComma
| TString (s : jsstring)
| TNumber (numeral : jsstring)
| TTrue | TFalse | TNull.

(** Positions inside a numeral: an optional minus sign; an integer part
    that is a single zero or starts with a nonzero digit; an optional
    fraction (a dot and at least one digit); an optional exponent ([e] or
    [E], an optional sign, at least one digit). *)
Inductive NumState :=
| NMinus | NZero | NInt | NDot | NFrac | NExp | NExpSign | NExpDigits.

Definition is_digit (c : N) : bool := (48 <=? c) && (c <=? 57).
Definition is_exp (c : N) : bool := (c =? 101) || (c =? 69).

Definition num_step (st : NumState) (c : N) : option NumState :=
  match st with
  | NMinus => if c =? 48 then Some NZero else if is_digit c then Some NInt else None
  | NZero => if c =? 46 then Some NDot else if is_exp c then Some NExp else None
  | NInt =>
      if is_digit c then Some NInt
      else if c =? 46 then Some NDot else if is_exp c then Some NExp else None
  | NDot => if is_digit c then Some NFrac else None
  | NFrac => if is_digit c then Some NFrac else if is_exp c then Some NExp else None
  | NExp =>
      if (c =? 43) || (c =? 45) then Some NExpSign
      else if is_digit c then Some NExpDigits else None
  | NExpSign => if is_digit c then Some NExpDigits else None
  | NExpDigits => if is_digit c then Some NExpDigits else None
  end.

Definition num_complete (st : NumState) : bool :=
  match st with
  | NZero | NInt | NFrac | NExpDigits => true
  | _ => false
  end.

Definition hex_value (c : N) : option N :=
  if is_digit c then Some (c - 48)
  else if (97 <=? c) && (c <=? 102) then Some (c - 87)
  else if (65 <=? c) && (c <=? 70) then Some (c - 55)
  else None.

(** Where the scanner is; accumulated code units are kept reversed. *)
Inductive LexMode :=
| LStart
| LStr (acc : jsstring)
| LEsc (acc : jsstring)
| LUni (acc : jsstring) (read : nat) (value : N)
| LNum (st : NumState) (acc : jsstring)
| LLit (rest : jsstring) (tok : Token).

Definition is_whitespace (c : N) : bool :=
  (c =? 32) || (c =? 9) || (c =? 10) || (c =? 13).

Definition lex_start (c : N) : option (list Token * LexMode) :=
  if is_whitespace c then Some ([], LStart)
  else if c =? 123 then Some ([TLBrace], LStart)
  else if c =? 125 then Some ([TRBrace], LStart)
  else if c =? 91 then Some ([TLBracket], LStart)
  else if c =? 93 then Some ([TRBracket], LStart)
  else if c =? 58 then Some ([TColon], LStart)
  else if c =? 44 then Some ([TComma], LStart)
  else if c =? 34 then Some ([], LStr [])
  else if c =? 45 then Some ([], LNum NMinus [c])
  else if c =? 48 then Some ([], LNum NZero [c])
  else if is_digit c then Some ([], LNum NInt [c])
  else if c =? 116 then Some ([], LLit (js "rue") TTrue)
  else if c =? 102 then Some ([], LLit (js "alse") TFalse)
  else if c =? 110 then Some ([], LLit (js "ull") TNull)
  else None.

Definition unescape (c : N) : option N :=
  if (c =? 34) || (c =? 92) || (c =? 47) then Some c
  else if c =? 98 then Some 8
  else if c =? 102 then Some 12
  else if c =? 110 then Some 10
  else if c =? 114 then Some 13
  else if c =? 116 then Some 9
  else None.

Definition lex_step (mode : LexMode) (c : N) : option (list Token * LexMode) :=
  match mode with
  | LStart => lex_start c
  | LStr acc =>
      if c =? 34 then Some ([TString (rev acc)], LStart)
      else if c =? 92 then Some ([], LEsc acc)
      else if c <? 32 then None
      else Some ([], LStr (c :: acc))
  | LEsc acc =>
      if c =? 117 then Some ([], LUni acc 0 0)
      else match unescape c with
           | Some u => Some ([], LStr (u :: acc))
           | None => None
           end
  | LUni acc read value =>
      match hex_value c with
      | Some d =>
          if (read =? 3)%nat then Some ([], LStr ((value * 16 + d) :: acc))
          else Some ([], LUni acc (S read) (value * 16 + d))
      | None => None
      end
  | LNum st acc =>
      match num_step st c with
      | Some st' => Some ([], LNum st' (c :: acc))
      | None =>
          if num_complete st then
            match lex_start c with
            | Some (toks, mode') => Some (TNumber (rev acc) :: toks, mode')
            | None => None
            end
          else None
      end
  | LLit rest tok =>
      match rest with
      | [] => None
      | [x] => if c =? x then Some ([tok], LStart) else None
      | x :: rest' => if c =? x then Some ([], LLit rest' tok) else None
      end
  end.

Definition lex_end (mode : LexMode) : option (list Token) :=
  match mode with
  | LStart => Some []
  | LNum st acc => if num_complete st then Some [TNumber (rev acc)] else None
  | _ => None
  end.

Fixpoint lex (mode : LexMode) (text : jsstring) : option (list Token) :=
  match text with
  | [] => lex_end mode
  | c :: rest =>
      match lex_step mode c with
      | Some (toks, mode') => app toks <$> lex mode' rest
      | None => None
      end
  end.

(** An enclosing container under construction. *)
Inductive Frame :=
| FArr (elems_rev : list JSValue)
| FObj (props : gmap jsstring JSValue)
| FMember (props : gmap jsstring JSValue) (key : jsstring).

(** What the grammar allows next. *)
Inductive Expect :=
| EValue
| EValueOrClose
| EKeyOrClose
| EKey
| EColon (key : jsstring)
| EAfterValue
| EDone (v : JSValue).

(** A value is complete: store it in the enclosing container.  A member
    of an object replaces an earlier member of the same name. *)
Definition complete (v : JSValue) (stack : list Frame)
  : option (list Frame * Expect) :=
  match stack with
  | [] => Some ([], EDone v)
  | FArr es :: up => Some (FArr (v :: es) :: up, EAfterValue)
  | FMember props key :: up => Some (FObj (<[key := v]> props) :: up, EAfterValue)
  | FObj _ :: _ => None
  end.

Definition start_value (tok : Token) (stack : list Frame)
  : option (list Frame * Expect) :=
  match tok with
  | TLBracket => Some (FArr [] :: stack, EValueOrClose)
  | TLBrace => Some (FObj ∅ :: stack, EKeyOrClose)
  | TString s => complete (JString s) stack
  | TNumber n => complete (JNumber n) stack
  | TTrue => complete (JBool true) stack
  | TFalse => complete (JBool false) stack
  | TNull => complete JNull stack
  | _ => None
  end.

Definition close (tok : Token) (stack : list Frame)
  : option (list Frame * Expect) :=
  match tok, stack with
  | TRBracket, FArr es :: up => complete (JArray (rev es)) up
  | TRBrace, FObj props :: up => complete (JObject props) up
  | _, _ => None
  end.

Definition parse_step (st : list Frame * Expect) (tok : Token)
  : option (list Frame * Expect) :=
  let '(stack, expect) := st in
  match expect with
  | EValue => start_value tok stack
  | EValueOrClose =>
      match tok with
      | TRBracket => close tok stack
      | _ => start_value tok stack
      end
  | EKeyOrClose =>
      match tok with
      | TString key => Some (stack, EColon key)
      | TRBrace => close tok stack
      | _ => None
      end
  | EKey =>
      match tok with
      | TString key => Some (stack, EColon key)
      | _ => None
      end
  | EColon key =>
      match tok, stack with
      | TColon, FObj props :: up => Some (FMember props key :: up, EValue)
      | _, _ => None
      end
  | EAfterValue =>
      match tok, stack with
      | TComma, FArr _ :: _ => Some (stack, EValue)
      | TComma, FObj _ :: _ => Some (stack, EKey)
      | TComma, _ => None
      | _, _ => close tok stack
      end
  | EDone _ => None
  end.

Fixpoint parse_tokens (st : list Frame * Expect) (toks : list Token)
  : option JSValue :=
  match toks with
  | [] => match st with
          | ([], EDone v) => Some v
          | _ => None
          end
  | tok :: rest =>
      match parse_step st tok with
      | Some st' => parse_tokens st' rest
      | None => None
      end
  end.

(** [JSON.parse(text)]; [None] stands for the [SyntaxError] it throws. *)
Definition parse (text : jsstring) : option JSValue :=
  lex LStart text ≫= parse_tokens ([], EValue).

End JSON.

(** ** [Buffer.prototype.toString("utf8")] *)

(** The UTF-8 decoder of the WHATWG Encoding Standard: an ill-formed
    sequence yields U+FFFD and the offending octet is read again as the
    start of a sequence.  The state is the code point so far, the number
    of continuation octets still due, and the range allowed for the next
    one. *)
Module UTF8.

Record Pending := { code_point : N; due : nat; lower : N; upper : N }.

Definition idle : Pending := {| code_point := 0; due := 0; lower := 0x80; upper := 0xBF |}.

Definition lead (b : N) : list N * Pending :=
  if b <=? 0x7F then ([b], idle)
  else if (0xC2 <=? b) && (b <=? 0xDF) then
    ([], {| code_point := b - 0xC0; due := 1; lower := 0x80; upper := 0xBF |})
  else if (0xE0 <=? b) && (b <=? 0xEF) then
    ([], {| code_point := b - 0xE0; due := 2;
            lower := if b =? 0xE0 then 0xA0 else 0x80;
            upper := if b =? 0xED then 0x9F else 0xBF |})
  else if (0xF0 <=? b) && (b <=? 0xF4) then
    ([], {| code_point := b - 0xF0; due := 3;
            lower := if b =? 0xF0 then 0x90 else 0x80;
            upper := if b =? 0xF4 then 0x8F else 0xBF |})
  else ([0xFFFD], idle).

Definition step (st : Pending) (b : N) : list N * Pending :=
  match due st with
  | O => lead b
  | S due' =>
      if (lower st <=? b) && (b <=? upper st) then
        let cp := code_point st * 0x40 + (b - 0x80) in
        match due' with
        | O => ([cp], idle)
        | _ => ([], {| code_point := cp; due := due'; lower := 0x80; upper := 0xBF |})
        end
      else let '(out, st') := lead b in (0xFFFD :: out, st')
  end.

Fixpoint code_points (st : Pending) (b : bytes) : list N :=
  match b with
  | [] => match due st with O => [] | S _ => [0xFFFD] end
  | x :: rest => let '(out, st') := step st x in out ++ code_points st' rest
  end.

(** UTF-16 code units of a code point. *)
Definition utf16 (cp : N) : jsstring :=
  if cp <? 0x10000 then [cp]
  else [0xD800 + (cp - 0x10000) / 0x400; 0xDC00 + (cp - 0x10000) mod 0x400].

Definition decode (b : bytes) : jsstring := flat_map utf16 (code_points idle b).

End UTF8.

(** ** Exceptions *)

(** What a [throw] carries: an [Error] made by this module or by a
    callback, the [SyntaxError] of [JSON.parse] and the [RangeError] of
    [crypto.timingSafeEqual] (their message texts belong to the engine),
    or any other value thrown by a callback. *)
Inductive Exn :=
| Error (message : jsstring)
| SyntaxError
| RangeError
| Thrown (v : JSValue).

(** ** The pure functions of [src/unnamed/part_001] *)

(** [allowed.includes(v)] for a list of string literals. *)
Definition includes (allowed : list jsstring) (v : JSValue) : bool :=
  match v with
  | JString s => bool_decide (s ∈ allowed)
  | _ => false
  end.

Definition entity_types : list jsstring :=
  [js "checkout"; js "customer"; js "order"; js "product";
   js "subscription"; js "refund"; js "dispute"; js "transaction"].

Definition isWebhookEntity (obj : JSValue) : bool :=
  if negb (truthy obj) || negb (bool_decide (typeof obj = js "object")) then false
  else
    let entity := obj in
    bool_decide (typeof (get entity (js "object")) = js "string")
    && includes entity_types (get entity (js "object")).

Definition isWebhookEvent (obj : JSValue) : bool :=
  if negb (truthy obj) || negb (bool_decide (typeof obj = js "object")) then false
  else
    let event := obj in
    bool_decide (typeof (get event (js "eventType")) = js "string")
    && bool_decide (typeof (get event (js "id")) = js "string")
    && bool_decide (typeof (get event (js "created_at")) = js "number")
    && has_property (js "object") event
    && isWebhookEntity (get event (js "object")).

Definition invalid_structure : Exn := Error (js "Invalid webhook event structure").

Definition parseWebhookEvent (payload : jsstring) : Exn + JSValue :=
  match JSON.parse payload with
  | None => inl SyntaxError
  | Some event =>
      if negb (isWebhookEvent event) then inl invalid_structure
      else inr event
  end.

(** [createHmac] and [update] take their string arguments as UTF-8. *)
Definition generateSignature (payload secret : jsstring) : jsstring :=
  hex_encode (hmac_sha256 (Buffer_from secret) (Buffer_from payload)).

(** [crypto.timingSafeEqual] throws when the lengths differ. *)
Definition timingSafeEqual (a b : bytes) : Exn + bool :=
  if bool_decide (length a = length b) then inr (bool_decide (a = b))
  else inl RangeError.

(** [verifySignature], with the comparison it calls last as a parameter. *)
Definition verifySignature_using (compare : bytes → bytes → Exn + bool)
    (payload signature secret : jsstring) : Exn + bool :=
  let expectedSignature := generateSignature payload secret in
  let signatureBuffer := Buffer_from signature in
  let expectedBuffer := Buffer_from expectedSignature in
  if negb (bool_decide (length signatureBuffer = length expectedBuffer)) then
    inr false
  else compare signatureBuffer expectedBuffer.

Definition verifySignature : jsstring → jsstring → jsstring → Exn + bool :=
  verifySignature_using timingSafeEqual.

(** ** Callbacks and the effects of [handleEvents] *)

(** The property names of the handlers object. *)
Inductive HandlerName :=
| onCheckoutCompleted | onRefundCreated | onDisputeCreated
| onSubscriptionActive | onSubscriptionTrialing | onSubscriptionPaid
| onSubscriptionPaused | onSubscriptionExpired | onSubscriptionCanceled
| onSubscriptionUnpaid | onSubscriptionUpdate | onSubscriptionPastDue
| onSubscriptionScheduledCancel
| onGrantAccess | onRevokeAccess.

(** What an observer of one call sees, in order. *)
Inductive Event :=
| Invoked (h : HandlerName) (arg : JSValue)
| Warned (message : jsstring).

(** The first argument of [handleEvents]. *)
Inductive Payload :=
| PString (s : jsstring)
| PBuffer (b : bytes).

(** [typeof payload === "string" ? payload : payload.toString("utf8")]. *)
Definition payload_text (payload : Payload) : jsstring :=
  match payload with
  | PString s => s
  | PBuffer b => UTF8.decode b
  end.

(** [v === "label"]. *)
Definition strict_eq_string (v : JSValue) (label : jsstring) : bool :=
  match v with
  | JString s => bool_decide (s = label)
  | _ => false
  end.

(** A [switch] whose every case ends in [break]. *)
Fixpoint switch {A} (v : JSValue) (cases : list (jsstring * A)) (default : A) : A :=
  match cases with
  | [] => default
  | (label, body) :: rest =>
      if strict_eq_string v label then body else switch v rest default
  end.

(** The text a template literal inserts for a string value. *)
Definition template_text (v : JSValue) : jsstring :=
  match v with JString s => s | _ => [] end.

Section Effects.

Context {W : Type}.

(** The state a call runs in: the world the callbacks act on, the log of
    what has happened, and how many [await]s have resumed. *)
Record State := mkState { world : W; log : list Event; resumed : nat }.

(** A computation that may throw. *)
Definition M (A : Type) : Type := State → State * (Exn + A).

Definition ret {A} (x : A) : M A := fun st => (st, inr x).
Definition throw {A} (e : Exn) : M A := fun st => (st, inl e).
Definition bind {A B} (m : M A) (k : A → M B) : M B :=
  fun st =>
    match m st with
    | (st', inr x) => k x st'
    | (st', inl e) => (st', inl e)
    end.

(** A pure fallible step. *)
Definition lift {A} (r : Exn + A) : M A := fun st => (st, r).

(** A callback, awaited to completion: it receives its argument, acts on
    the world, and returns or throws (a rejected promise rethrows at the
    [await]). *)
Definition Handler : Type := JSValue → W → W * (Exn + unit).

(** The handlers object: each property is optional.  The object is only
    read; the callbacks are taken not to modify it while a call runs. *)
Definition Handlers : Type := HandlerName → option Handler.

Definition invoke (name : HandlerName) (h : Handler) (arg : JSValue) : M unit :=
  fun st =>
    let '(w, r) := h arg (world st) in
    ({| world := w; log := log st ++ [Invoked name arg]; resumed := resumed st |}, r).

(** Execution resumes after an [await]. *)
Definition resume : M unit :=
  fun st => ({| world := world st; log := log st; resumed := S (resumed st) |}, inr tt).

Definition console_warn (message : jsstring) : M unit :=
  fun st =>
    ({| world := world st; log := log st ++ [Warned message]; resumed := resumed st |},
     inr tt).

(** [await handlers.name?.(arg)]. *)
Definition await_call (handlers : Handlers) (name : HandlerName) (arg : JSValue)
  : M unit :=
  match handlers name with
  | Some h => bind (invoke name h arg) (fun _ => resume)
  | None => resume
  end.

End Effects.

Arguments State : clear implicits.
Arguments M : clear implicits.
Arguments Handler : clear implicits.
Arguments Handlers : clear implicits.

#[global] Instance M_ret {W} : MRet (M W) := @ret W.
#[global] Instance M_bind {W} : MBind (M W) := fun A B k m => bind m k.

(** ** [handleEvents] *)

Section Webhooks.

Context {W : Type}.

(** [toCamelCase] is imported from [../utils], whose source is missing:
    [handleEvents] is modelled for any such function. *)
Variable toCamelCase : JSValue → JSValue.

Definition normalizeWebhookData (data : JSValue) : JSValue := toCamelCase data.

Definition secret_not_configured : Exn :=
  Error (js "Webhook secret not configured. Pass `webhookSecret` to `createCreem`.").

Definition invalid_signature : Exn := Error (js "Invalid webhook signature").

(** The argument of a specific-event handler:
    [{ webhookEventType: event.eventType, webhookId: event.id,
       webhookCreatedAt: event.created_at, ...data }]. *)
Definition event_argument (event data : JSValue) : JSValue :=
  object_spread
    [(js "webhookEventType", get event (js "eventType"));
     (js "webhookId", get event (js "id"));
     (js "webhookCreatedAt", get event (js "created_at"))]
    data.

(** The argument of an access-control handler: [{ reason: r, ...data }]. *)
Definition access_argument (reason : jsstring) (data : JSValue) : JSValue :=
  object_spread [(js "reason", JString reason)] data.

(** Step 6 of [handleEvents]: the [switch] on [event.eventType]. *)
Definition route (event normalizedObject : JSValue) (handlers : Handlers W)
  : M W unit :=
  let specific name := await_call handlers name (event_argument event normalizedObject) in
  let access name reason := await_call handlers name (access_argument reason normalizedObject) in
  switch (get event (js "eventType"))
    [(js "checkout.completed", specific onCheckoutCompleted);
     (js "refund.created", specific onRefundCreated);
     (js "dispute.created", specific onDisputeCreated);
     (js "subscription.active",
        access onGrantAccess (js "subscription_active");;
        specific onSubscriptionActive);
     (js "subscription.trialing",
        access onGrantAccess (js "subscription_trialing");;
        specific onSubscriptionTrialing);
     (js "subscription.paid",
        access onGrantAccess (js "subscription_paid");;
        specific onSubscriptionPaid);
     (js "subscription.paused",
        access onRevokeAccess (js "subscription_paused");;
        specific onSubscriptionPaused);
     (js "subscription.expired",
        access onRevokeAccess (js "subscription_expired");;
        specific onSubscriptionExpired);
     (js "subscription.canceled", specific onSubscriptionCanceled);
     (js "subscription.unpaid", specific onSubscriptionUnpaid);
     (js "subscription.update", specific onSubscriptionUpdate);
     (js "subscription.past_due", specific onSubscriptionPastDue);
     (js "subscription.scheduled_cancel", specific onSubscriptionScheduledCancel)]
    (console_warn (js "Unknown webhook event type: "
                     ++ template_text (get event (js "eventType")))).

(** [webhooksResource(secret).handleEvents(payload, signature, handlers)].
    [secret] is [None] when the argument was omitted; [!secret] also holds
    for the empty string. *)
Definition handleEvents (secret : option jsstring)
    (payload : Payload) (signature : jsstring) (handlers : Handlers W)
  : M W unit :=
  match secret with
  | None => throw secret_not_configured
  | Some secret =>
      if negb (truthy (JString secret)) then throw secret_not_configured
      else
        let payloadString := payload_text payload in
        valid ← lift (verifySignature payloadString signature secret);
        if negb valid then throw invalid_signature
        else
          event ← lift (parseWebhookEvent payloadString);
          let normalizedObject := normalizeWebhookData (get event (js "object")) in
          route event normalizedObject handlers
  end.

End Webhooks.

(** ** The API client: [createRequest] of [src/request.ts] *)

Inductive Method := GET | POST | PUT | DELETE.

Section Transport.

(** The platform the client runs on is a parameter: [X] is what its
    operations throw or reject with, [URL] its parsed URLs and [Net] the
    state of the network and the server behind it. *)
Context {X URL Net : Type}.

(** What a call of the client throws or rejects with: an [Error] made by
    the client's own code, or whatever the platform or an imported helper
    raised. *)
Inductive Raised :=
| NewError (message : jsstring)
| Raise (x : X).

(** The second argument of [fetch]. *)
Record RequestInit := mkRequestInit {
  init_method : Method;
  init_headers : list (jsstring * jsstring);
  init_body : option jsstring
}.

(** What the client reads of a response; [json] is what [response.json()]
    settles to. *)
Record Response := mkResponse {
  ok : bool;
  status : N;
  statusText : jsstring;
  json : X + JSValue
}.

(** The network, and the requests handed to [fetch] so far. *)
Record Wire := mkWire { net : Net; sent : list (jsstring * RequestInit) }.

(** An asynchronous computation: it acts on the wire and resolves or
    rejects. *)
Definition Async (A : Type) : Type := Wire → Wire * (Raised + A).

Definition resolve {A} (x : A) : Async A := fun st => (st, inr x).
Definition reject {A} (e : Raised) : Async A := fun st => (st, inl e).
Definition await {A B} (m : Async A) (k : A → Async B) : Async B :=
  fun st =>
    match m st with
    | (st', inr x) => k x st'
    | (st', inl e) => (st', inl e)
    end.

(** The type [RequestFn] of the function that [createRequest] returns. *)
Definition RequestFn : Type :=
  Method → jsstring → JSValue → option (list (jsstring * JSValue)) → Async JSValue.

(** A platform operation that returns or throws. *)
Definition platform {A} (r : X + A) : Async A :=
  fun st => (st, match r with inl x => inl (Raise x) | inr a => inr a end).

End Transport.

Arguments Raised : clear implicits.
Arguments Response : clear implicits.
Arguments Wire : clear implicits.
Arguments Async : clear implicits.
Arguments RequestFn : clear implicits.

(** [v == null]: the values a property read throws on. *)
Definition nullish (v : JSValue) : bool :=
  match v with
  | JUndefined | JNull => true
  | _ => false
  end.

Definition is_undefined (v : JSValue) : bool :=
  match v with
  | JUndefined => true
  | _ => false
  end.

Section Client.

Context {X URL Net : Type}.

(** The constructor [new URL(text)], which throws on a text that is not a
    URL; [url.searchParams.append(key, value)]; [url.toString()]. *)
Variable URL_new : jsstring → X + URL.
Variable searchParams_append : jsstring → jsstring → URL → URL.
Variable URL_toString : URL → jsstring.

(** [fetch(url, init)]: the network answers with a response or rejects. *)
Variable fetch : jsstring → RequestInit → Net → Net * (X + Response X).

(** [JSON.stringify], on the values it has a text for. *)
Variable JSON_stringify : JSValue → jsstring.

(** The engine's reading of a number, from its numeral: the text of
    [Number.prototype.toString], and whether the number is truthy (not
    zero). *)
Variable Number_toString : jsstring → jsstring.
Variable Number_truthy : jsstring → bool.

(** [toCamelCase] of [./utils], whose source is missing. *)
Variable toCamelCase : JSValue → JSValue.

(** [String(v)], which is also what a template literal inserts and what
    [new Error(v)] keeps as message: an array is joined with commas, its
    [null] and [undefined] elements left empty. *)
Fixpoint ToString (v : JSValue) : jsstring :=
  match v with
  | JUndefined => js "undefined"
  | JNull => js "null"
  | JBool b => if b then js "true" else js "false"
  | JNumber numeral => Number_toString numeral
  | JString s => s
  | JArray elems =>
      (fix join (l : list JSValue) : jsstring :=
         match l with
         | [] => []
         | x :: rest =>
             (if nullish x then [] else ToString x)
             ++ match rest with
                | [] => []
                | _ => 44 :: join rest
                end
         end) elems
  | JObject _ => js "[object Object]"
  end.

(** [ToBoolean]. *)
Definition ToBoolean (v : JSValue) : bool :=
  match v with
  | JNumber numeral => Number_truthy numeral
  | _ => truthy v
  end.

Definition send (url : jsstring) (init : RequestInit) : Async X Net (Response X) :=
  fun st =>
    let '(n, r) := fetch url init (net st) in
    (mkWire n (sent st ++ [(url, init)]),
     match r with inl x => inl (Raise x) | inr response => inr response end).

(** The [forEach] over [Object.entries(queryParams)]. *)
Definition append_defined (url : URL) (entry : jsstring * JSValue) : URL :=
  if negb (is_undefined entry.2) then
    searchParams_append entry.1 (ToString entry.2) url
  else url.

(** [if (queryParams) { ... }]. *)
Definition with_query (url : URL) (queryParams : option (list (jsstring * JSValue)))
  : URL :=
  match queryParams with
  | Some entries => foldl append_defined url entries
  | None => url
  end.

(** The headers of every request. *)
Definition request_headers (apiKey : jsstring) : list (jsstring * jsstring) :=
  [(js "Content-Type", js "application/json");
   (js "x-api-key", apiKey);
   (js "User-Agent", js "creem-sdk-node/0.1.0")].

(** [data ? JSON.stringify(data) : undefined]. *)
Definition request_body (data : JSValue) : option jsstring :=
  if ToBoolean data then Some (JSON_stringify data) else None.

(** The [try]/[catch] around the error body: a body that is not JSON, and
    the [TypeError] of reading [message] off [null], leave the message as
    it was. *)
Definition error_message (response : Response X) : JSValue :=
  let errorMessage := JString (statusText response) in
  match json response with
  | inr errorBody =>
      if nullish errorBody then errorMessage
      else
        if ToBoolean (get errorBody (js "message")) then get errorBody (js "message")
        else errorMessage
  | inl _ => errorMessage
  end.

(** The code after the [fetch]: a response that is not [ok] is thrown as
    an [Error]; status 204 gives [{}] without reading the body; any other
    response gives its body, converted. *)
Definition settle (response : Response X) : Async X Net JSValue :=
  if negb (ok response) then reject (NewError (ToString (error_message response)))
  else if status response =? 204 then resolve (JObject ∅)
  else await (platform (json response)) (fun responseData =>
       resolve (toCamelCase responseData)).

(** [createRequest(apiKey, baseUrl)(method, path, data, queryParams)].
    [data] is [JUndefined] and [queryParams] is [None] when omitted;
    the entries of [queryParams] are in the order of [Object.entries]. *)
Definition createRequest (apiKey baseUrl : jsstring) : RequestFn X Net :=
  fun method path data queryParams =>
  let headers := request_headers apiKey in
  await (platform (URL_new (baseUrl ++ path))) (fun url =>
  let url := with_query url queryParams in
  await (send (URL_toString url)
           (mkRequestInit method headers (request_body data)))
    settle).

End Client.

(** ** The subscriptions resource: [src/unnamed/part_002] *)

(** The methods of the object that [subscriptionsResource] returns. *)
Inductive SubscriptionMethod := Get | Cancel | Update | Upgrade.

Section Subscriptions.

Context {X Net : Type}.

(** The [TypeError] the engine raises. *)
Variable TypeError : X.

(** [required], [isString] and [isArray] are imported from [../validate],
    whose source is missing: each takes a value and its name and returns
    or throws. *)
Variables required isString isArray : JSValue → jsstring → Raised X + unit.

Variable Number_toString : jsstring → jsstring.

(** The [RequestFn] the resource is made with. *)
Variable request : RequestFn X Net.

(** A statement that returns or throws, followed by the rest. *)
Definition and_then {A} (r : Raised X + unit) (rest : Raised X + A) : Raised X + A :=
  match r with
  | inl e => inl e
  | inr _ => rest
  end.

(** The object literal [{ k1: v1, ..., kn: vn }]. *)
Definition object_literal (listed : list (jsstring * JSValue)) : JSValue :=
  JObject (list_to_map (reverse listed)).

(** The arrow function given to [map] in [update]: reading a property of
    [null] or [undefined] throws. *)
Definition wire_item (item : JSValue) : Raised X + JSValue :=
  if nullish item then inl (Raise TypeError)
  else
    inr (object_literal
           [(js "id", get item (js "id"));
            (js "product_id", get item (js "productId"));
            (js "price_id", get item (js "priceId"));
            (js "units", get item (js "units"))]).

Fixpoint map_items (items : list JSValue) : Raised X + list JSValue :=
  match items with
  | [] => inr []
  | item :: rest =>
      match wire_item item with
      | inl e => inl e
      | inr first =>
          match map_items rest with
          | inl e => inl e
          | inr others => inr (first :: others)
          end
      end
  end.

(** [items?.map(...)]: [undefined] for [null] and [undefined]; a value
    that is neither these nor an array has no [map] to call. *)
Definition wire_items (items : JSValue) : Raised X + JSValue :=
  match items with
  | JUndefined | JNull => inr JUndefined
  | JArray elems =>
      match map_items elems with
      | inl e => inl e
      | inr mapped => inr (JArray mapped)
      end
  | _ => inl (Raise TypeError)
  end.

(** [subscriptionsResource(request)]: each method takes the [params]
    object and throws, or returns the promise of one request. *)
Definition subscriptionsResource (method : SubscriptionMethod)
    (params : gmap jsstring JSValue) : Raised X + Async X Net JSValue :=
  let field := get (JObject params) in
  let text := ToString Number_toString in
  match method with
  | Get =>
      and_then (required (field (js "subscriptionId")) (js "subscriptionId"))
     (and_then (isString (field (js "subscriptionId")) (js "subscriptionId"))
     (inr (request GET (js "/v1/subscriptions") JUndefined
             (Some [(js "subscription_id", field (js "subscriptionId"))]))))
  | Cancel =>
      and_then (required (field (js "subscriptionId")) (js "subscriptionId"))
     (and_then (isString (field (js "subscriptionId")) (js "subscriptionId"))
     (and_then (isString (field (js "mode")) (js "mode"))
     (inr (request POST
             (js "/v1/subscriptions/" ++ text (field (js "subscriptionId"))
                ++ js "/cancel")
             (object_literal [(js "mode", field (js "mode"))])
             None))))
  | Update =>
      and_then (required (field (js "subscriptionId")) (js "subscriptionId"))
     (and_then (isString (field (js "subscriptionId")) (js "subscriptionId"))
     (and_then (isArray (field (js "items")) (js "items"))
     (and_then (isString (field (js "updateBehavior")) (js "updateBehavior"))
     (match wire_items (field (js "items")) with
      | inl e => inl e
      | inr items =>
          inr (request POST
                 (js "/v1/subscriptions/" ++ text (field (js "subscriptionId")))
                 (object_literal
                    [(js "items", items);
                     (js "update_behavior", field (js "updateBehavior"))])
                 None)
      end))))
  | Upgrade =>
      and_then (required (field (js "subscriptionId")) (js "subscriptionId"))
     (and_then (isString (field (js "subscriptionId")) (js "subscriptionId"))
     (and_then (required (field (js "productId")) (js "productId"))
     (and_then (isString (field (js "productId")) (js "productId"))
     (and_then (isString (field (js "updateBehavior")) (js "updateBehavior"))
     (inr (request POST
             (js "/v1/subscriptions/" ++ text (field (js "subscriptionId"))
                ++ js "/upgrade")
             (object_literal
                [(js "product_id", field (js "productId"));
                 (js "update_behavior", field (js "updateBehavior"))])
             None))))))
  end.

End Subscriptions.

(** ** The client: [createCreem] *)

Record CreemOptions := mkCreemOptions {
  apiKey : jsstring;
  webhookSecret : option jsstring;
  testMode : option bool
}.

Section Creem.

Context {X URL Net W : Type}.
Context {Products Checkouts Customers Transactions Licenses Discounts : Type}.

(** The resources whose source is missing. *)
Variable productsResource : RequestFn X Net → Products.
Variable checkoutsResource : RequestFn X Net → Checkouts.
Variable customersResource : RequestFn X Net → Customers.
Variable transactionsResource : RequestFn X Net → Transactions.
Variable licensesResource : RequestFn X Net → Licenses.
Variable discountsResource : RequestFn X Net → Discounts.

Variable URL_new : jsstring → X + URL.
Variable searchParams_append : jsstring → jsstring → URL → URL.
Variable URL_toString : URL → jsstring.
Variable fetch : jsstring → RequestInit → Net → Net * (X + Response X).
Variable JSON_stringify : JSValue → jsstring.
Variable Number_toString : jsstring → jsstring.
Variable Number_truthy : jsstring → bool.
Variable toCamelCase : JSValue → JSValue.
Variable TypeError : X.
Variables required isString isArray : JSValue → jsstring → Raised X + unit.

Record Creem := mkCreem {
  products : Products;
  checkouts : Checkouts;
  customers : Customers;
  subscriptions :
    SubscriptionMethod → gmap jsstring JSValue → Raised X + Async X Net JSValue;
  transactions : Transactions;
  licenses : Licenses;
  discounts : Discounts;
  webhooks : Payload → jsstring → Handlers W → M W unit
}.

(** The host the client talks to; [testMode] is [false] when omitted. *)
Definition base_url (options : CreemOptions) : jsstring :=
  if default false (testMode options) then js "https://test-api.creem.io"
  else js "https://api.creem.io".

Definition createCreem (options : CreemOptions) : Creem :=
  let baseUrl := base_url options in
  let request :=
    createRequest URL_new searchParams_append URL_toString fetch JSON_stringify
      Number_toString Number_truthy toCamelCase (apiKey options) baseUrl in
  mkCreem
    (productsResource request)
    (checkoutsResource request)
    (customersResource request)
    (subscriptionsResource TypeError required isString isArray Number_toString request)
    (transactionsResource request)
    (licensesResource request)
    (discountsResource request)
    (handleEvents toCamelCase (webhookSecret options)).

End Creem.

(** ** The field normalizer *)

Definition is_lower (c : N) : bool := (97 <=? c) && (c <=? 122).

(** The pieces of [s] between occurrences of [sep]. *)
Fixpoint split_on (sep : N) (s : jsstring) : list jsstring :=
  match s with
  | [] => [[]]
  | c :: rest =>
      if c =? sep then [] :: split_on sep rest
      else match split_on sep rest with
           | w :: ws => (c :: w) :: ws
           | [] => [[c]]
           end
  end.

(** Modelled from the spec: the key test of [toCamelCase] ([src/utils.ts]
    is missing).  A key matches the wire convention when it consists of
    lowercase words joined by underscores. *)
Definition is_wire_key (key : jsstring) : bool :=
  forallb (fun w => negb (bool_decide (w = [])) && forallb is_lower w)
          (split_on 95 key).

Definition capitalize (w : jsstring) : jsstring :=
  match w with
  | c :: rest => (if is_lower c then c - 32 else c) :: rest
  | [] => []
  end.

(** Modelled from the spec: the key conversion of [toCamelCase]
    ([src/utils.ts] is missing).  A wire-convention key becomes its first
    word followed by its other words capitalized, without separators; any
    other key is left unchanged. *)
Definition camelKey (key : jsstring) : jsstring :=
  if is_wire_key key then
    match split_on 95 key with
    | w :: ws => w ++ concat (capitalize <$> ws)
    | [] => key
    end
  else key.

(** Modelled from the spec: [toCamelCase] of [src/utils.ts], which is
    missing.  The keys of every mapping are converted, nested mappings and
    the elements of sequences are converted recursively, scalars are left
    untouched.  The result of converting a mapping is a mapping: it holds
    one value per converted key. *)
Fixpoint toCamelCase (v : JSValue) : JSValue :=
  match v with
  | JArray elems => JArray (map toCamelCase elems)
  | JObject props => JObject (kmap camelKey (toCamelCase <$> props))
  | _ => v
  end.

(** [renamed f x y]: [y] is [x] with the keys of its mappings renamed by
    [f], key for key: a mapping keeps its number of keys, each key [k] is
    found again at [f k] and no other key appears; a sequence keeps its
    length; a scalar is unchanged. *)
Inductive renamed (f : jsstring → jsstring) : JSValue → JSValue → Prop :=
| renamed_undefined : renamed f JUndefined JUndefined
| renamed_null : renamed f JNull JNull
| renamed_bool b : renamed f (JBool b) (JBool b)
| renamed_number n : renamed f (JNumber n) (JNumber n)
| renamed_string s : renamed f (JString s) (JString s)
| renamed_array l l' :
    Forall2 (renamed f) l l' → renamed f (JArray l) (JArray l')
| renamed_object (m m' : gmap jsstring JSValue) :
    size m' = size m →
    (∀ k v, m !! k = Some v → ∃ v', m' !! f k = Some v' ∧ renamed f v v') →
    (∀ k', is_Some (m' !! k') → ∃ k, is_Some (m !! k) ∧ k' = f k) →
    renamed f (JObject m) (JObject m').

(** No two keys of one mapping, at any depth, have the same converted
    form. *)
Fixpoint collision_free (v : JSValue) : bool :=
  match v with
  | JArray elems => forallb collision_free elems
  | JObject props =>
      bool_decide (NoDup (camelKey <$> (map_to_list props).*1))
      && map_fold (fun _ x acc => collision_free x && acc) true props
  | _ => true
  end.

(** ** The dispatch table of the specification *)

(** A row: the access-control pre-step (handler and reason), if any, and
    the handler invoked next. *)
Record Row := mkRow {
  pre_step : option (HandlerName * jsstring);
  then_invokes : HandlerName
}.

Definition dispatch_table : list (jsstring * Row) :=
  [(js "checkout.completed", mkRow None onCheckoutCompleted);
   (js "refund.created", mkRow None onRefundCreated);
   (js "dispute.created", mkRow None onDisputeCreated);
   (js "subscription.active",
      mkRow (Some (onGrantAccess, js "subscription_active")) onSubscriptionActive);
   (js "subscription.trialing",
      mkRow (Some (onGrantAccess, js "subscription_trialing")) onSubscriptionTrialing);
   (js "subscription.paid",
      mkRow (Some (onGrantAccess, js "subscription_paid")) onSubscriptionPaid);
   (js "subscription.paused",
      mkRow (Some (onRevokeAccess, js "subscription_paused")) onSubscriptionPaused);
   (js "subscription.expired",
      mkRow (Some (onRevokeAccess, js "subscription_expired")) onSubscriptionExpired);
   (js "subscription.canceled", mkRow None onSubscriptionCanceled);
   (js "subscription.unpaid", mkRow None onSubscriptionUnpaid);
   (js "subscription.update", mkRow None onSubscriptionUpdate);
   (js "subscription.past_due", mkRow None onSubscriptionPastDue);
   (js "subscription.scheduled_cancel", mkRow None onSubscriptionScheduledCancel)].

Definition table_row (eventType : jsstring) : option Row :=
  snd <$> find (fun entry => bool_decide (eventType = entry.1)) dispatch_table.

(** The invocations a row asks for, in order, with their arguments. *)
Definition row_steps (event data : JSValue) (row : Row)
  : list (HandlerName * JSValue) :=
  match pre_step row with
  | Some (name, reason) => [(name, access_argument reason data)]
  | None => []
  end ++ [(then_invokes row, event_argument event data)].

(** Sequential dispatch as the specification words it: each step's handler,
    when registered, is invoked on the world the previous step left and is
    awaited; an unregistered handler is skipped; the first failure stops
    the sequence and is the result. *)
Fixpoint perform {W} (handlers : Handlers W) (steps : list (HandlerName * JSValue))
    (st : State W) : State W * (Exn + unit) :=
  match steps with
  | [] => (st, inr tt)
  | (name, arg) :: rest =>
      match handlers name with
      | None => perform handlers rest (mkState (world st) (log st) (S (resumed st)))
      | Some h =>
          match h arg (world st) with
          | (w, inr _) =>
              perform handlers rest
                (mkState w (log st ++ [Invoked name arg]) (S (resumed st)))
          | (w, inl e) =>
              (mkState w (log st ++ [Invoked name arg]) (resumed st), inl e)
          end
      end
  end.

(** JSON text written with apostrophes in place of double quotes. *)
Definition jsq (s : string) : jsstring :=
  (fun c => if c =? 39 then 34 else c) <$> js s.

(** The number of constructors of a value: the measure for induction over
    nested values. *)
Fixpoint jsize (v : JSValue) : nat :=
  match v with
  | JArray elems => S (foldr (fun x acc => jsize x + acc)%nat 0%nat elems)
  | JObject props => S (map_fold (fun _ x acc => jsize x + acc)%nat 0%nat props)
  | _ => 1%nat
  end.

(** Strings of code units below 128. *)
Definition ascii_only (s : jsstring) : Prop := Forall (fun c => c < 0x80) s.

(** Bit [bit] of code unit [i] of [s] inverted. *)
Definition flip_bit (i : nat) (bit : N) (s : jsstring) : jsstring :=
  alter (fun c => N.lxor c (2 ^ bit)) i s.

(** ** Notions used to state further properties *)

(** The characters of lowercase hexadecimal notation. *)
Definition is_hex_lower (c : N) : bool :=
  ((48 <=? c) && (c <=? 57)) || ((97 <=? c) && (c <=? 102)).

(** Well-formed UTF-16: code units below [0x10000], every high surrogate
    followed by a low surrogate, no other low surrogate. *)
Fixpoint well_formed_utf16 (s : jsstring) : bool :=
  match s with
  | [] => true
  | c :: rest =>
      if is_high_surrogate c then
        match rest with
        | d :: rest' => is_low_surrogate d && well_formed_utf16 rest'
        | [] => false
        end
      else negb (is_low_surrogate c) && (c <? 0x10000) && well_formed_utf16 rest
  end.

(** The handlers a log shows as invoked, in order. *)
Definition invoked_names (l : list Event) : list HandlerName :=
  omap (fun e => match e with Invoked name _ => Some name | Warned _ => None end) l.

(** The handlers a row of the dispatch table names, in order. *)
Definition row_names (row : Row) : list HandlerName :=
  match pre_step row with
  | Some (name, _) => [name]
  | None => []
  end ++ [then_invokes row].

#[global] Instance HandlerName_eq_dec : EqDecision HandlerName.
Proof. solve_decision. Defined.

(** What a call added to the log. *)
Definition added_log {W} (before after : State W) : list Event :=
  drop (length (log before)) (log after).

(** The event types that grant and that revoke access. *)
Definition grant_event_types : list jsstring :=
  [js "subscription.active"; js "subscription.trialing"; js "subscription.paid"].

Definition revoke_event_types : list jsstring :=
  [js "subscription.paused"; js "subscription.expired"].

(** An accepted delivery: the secret is configured, the signature
    verifies and the payload parses to [event]. *)
Definition accepted (secret : option jsstring) (payload : Payload)
    (signature : jsstring) (event : JSValue) : Prop :=
  ∃ s, secret = Some s ∧ s ≠ []
    ∧ verifySignature (payload_text payload) signature s = inr true
    ∧ parseWebhookEvent (payload_text payload) = inr event.

(** Arithmetic with division and remainder by constants. *)
Ltac euclid := zify; Z.to_euclidean_division_equations; lia.

(** ** Sample deliveries *)

Definition sample_secret : jsstring := js "whsec_test".

Definition sample_checkout : jsstring :=
  jsq "{'id':'evt_1','eventType':'checkout.completed','created_at':1700000000,'object':{'object':'checkout','customer_id':'cus_1'}}".

Definition sample_active : jsstring :=
  jsq "{'id':'evt_2','eventType':'subscription.active','created_at':1700000001,'object':{'object':'subscription','customer_id':'cus_1'}}".

(** A subscription whose own fields are named like the wrapper fields. *)
Definition sample_spoofed : jsstring :=
  jsq "{'id':'evt_3','eventType':'subscription.active','created_at':1700000002,'object':{'object':'subscription','reason':'spoofed','webhook_event_type':'spoofed'}}".

Definition sample_not_json : jsstring := js "not json".

(** The envelope keys in the other casing. *)
Definition sample_createdAt : jsstring :=
  jsq "{'id':'evt_4','eventType':'checkout.completed','createdAt':1700000000,'object':{'object':'checkout'}}".

Definition sample_event_type : jsstring :=
  jsq "{'id':'evt_5','event_type':'checkout.completed','created_at':1700000000,'object':{'object':'checkout'}}".

(** An object without type discriminator. *)
Definition sample_no_discriminator : jsstring :=
  jsq "{'id':'evt_6','eventType':'checkout.completed','created_at':1700000000,'object':{'customer_id':'cus_1'}}".

(** Two keys with one converted form. *)
Definition sample_collision : JSValue :=
  JObject (<[js "a_b" := JNumber (js "1")]> (<[js "aB" := JNumber (js "2")]> ∅)).

Definition sample_nested : JSValue :=
  JObject (<[js "customer_id" := JString (js "cus_1")]>
          (<[js "items" := JArray [JObject (<[js "unit_price" := JNumber (js "5")]> ∅); JNull]]> ∅)).

(** The decoded value of a text, when it has one. *)
Definition decoded (text : jsstring) : JSValue := default JUndefined (JSON.parse text).

(** Handlers that are registered for every name and return. *)
Definition all_return : Handlers unit := fun _ => Some (fun _ w => (w, inr tt)).

(** As [all_return], except that [onGrantAccess] throws. *)
Definition grant_throws : Handlers unit :=
  fun name =>
    match name with
    | onGrantAccess => Some (fun _ w => (w, inl (Error (js "grant failed"))))
    | _ => Some (fun _ w => (w, inr tt))
    end.

Definition initial : State unit := mkState tt [] 0.

(** What a logged invocation passed under [key]. *)
Definition argument_field (key : jsstring) (e : Event) : option (HandlerName * JSValue) :=
  match e with
  | Invoked name arg => Some (name, get arg key)
  | Warned _ => None
  end.

(** ** A sample platform *)

(** Stand-ins to run the client on (the theorems hold for every
    platform): errors are named, a URL is its text and the parameters
    appended to it, without escaping, and the network answers the
    requests with the responses it holds, in order. *)
Definition SampleURL : Type := jsstring * list (jsstring * jsstring).

Definition sample_URL_new (text : jsstring) : string + SampleURL :=
  if bool_decide (take 8 text = js "https://") then inr (text, [])
  else inl "TypeError"%string.

Definition sample_append (key value : jsstring) (url : SampleURL) : SampleURL :=
  (url.1, url.2 ++ [(key, value)]).

Definition sample_URL_toString (url : SampleURL) : jsstring :=
  url.1 ++ flat_map (fun entry => js "&" ++ entry.1 ++ js "=" ++ entry.2) url.2.

Definition sample_fetch (url : jsstring) (init : RequestInit)
    (responses : list (Response string))
  : list (Response string) * (string + Response string) :=
  match responses with
  | response :: rest => (rest, inr response)
  | [] => ([], inl "TypeError"%string)
  end.

(** A text for every value; the numeral as the text of a number, which is
    zero when its mantissa is. *)
Definition sample_stringify (v : JSValue) : jsstring := js "{}".
Definition sample_Number_toString (numeral : jsstring) : jsstring := numeral.
Definition sample_Number_truthy (numeral : jsstring) : bool :=
  negb (mantissa_is_zero numeral).

(** Validators that accept every value. *)
Definition sample_validator (v : JSValue) (name : jsstring) : Raised string + unit :=
  inr tt.

Definition sample_request : RequestFn string (list (Response string)) :=
  createRequest sample_URL_new sample_append sample_URL_toString sample_fetch
    sample_stringify sample_Number_toString sample_Number_truthy toCamelCase
    (js "creem_key") (js "https://api.creem.io").

Definition sample_not_found : Response string :=
  mkResponse false 404 (js "Not Found")
    (inr (decoded (jsq "{'message':'No such subscription'}"))).

Definition sample_no_content : Response string :=
  mkResponse true 204 (js "No Content") (inl "SyntaxError"%string).

Definition sample_update : gmap jsstring JSValue :=
  own_enumerable (decoded (jsq
    "{'subscriptionId':'sub_1','items':[{'id':'it_1','productId':'prod_1','units':2}],'updateBehavior':'proration-none'}")).

Definition sample_options : CreemOptions :=
  mkCreemOptions (js "creem_key") None (Some true).

Definition sample_creem : Creem :=
  createCreem (W := unit) (X := string)
    (fun _ => tt) (fun _ => tt) (fun _ => tt) (fun _ => tt) (fun _ => tt) (fun _ => tt)
    sample_URL_new sample_append sample_URL_toString sample_fetch sample_stringify
    sample_Number_toString sample_Number_truthy toCamelCase "TypeError"%string
    sample_validator sample_validator sample_validator sample_options.

(** A delivery with characters outside ASCII, one of them outside the
    basic plane. *)
Definition sample_unicode : jsstring :=
  jsq "{'id':'evt_7','eventType':'checkout.completed','created_at':1700000003,'object':{'object':'checkout','note':'"
  ++ [0xE9; 0x20AC; 0xD83D; 0xDE00] ++ jsq "'}}".

(** No handler registered. *)
Definition no_handlers : Handlers unit := fun _ => None.

(** * The runtime model on known values *)

(** FIPS 180-4 and RFC 4231 test vectors. *)
Example sha256_abc :
  hex_encode (SHA256.digest (js "abc"))
  = js "ba7816bf8f01cfea414140de5dae2223b00361a396177a9cb410ff61f20015ad".
Proof. vm_compute. reflexivity. Qed.

Example sha256_two_blocks :
  hex_encode (SHA256.digest
    (js "abcdbcdecdefdefgefghfghighijhijkijkljklmklmnlmnomnopnopq"))
  = js "248d6a61d20638b8e5c026930c3e6039a33ce45964ff2167f6ecedd419db06c1".
Proof. vm_compute. reflexivity. Qed.

Example hmac_sha256_rfc4231_case_2 :
  hex_encode (hmac_sha256 (js "Jefe") (js "what do ya want for nothing?"))
  = js "5bdcc146bf60754e6a042426089575c75a003f089d2739839dec58b964ec3843".
Proof. vm_compute. reflexivity. Qed.

Example Buffer_from_non_ascii :
  Buffer_from [0xE9; 0x20AC; 0xD83D; 0xDE00; 0xD800; 0x41]
  = [0xC3; 0xA9; 0xE2; 0x82; 0xAC; 0xF0; 0x9F; 0x98; 0x80; 0xEF; 0xBF; 0xBD; 0x41].
Proof. reflexivity. Qed.

Example utf8_decode_ill_formed :
  UTF8.decode [0x41; 0xC3; 0xA9; 0xFF; 0xF0; 0x9F; 0x98; 0x80; 0xE2; 0x82]
  = [0x41; 0xE9; 0xFFFD; 0xD83D; 0xDE00; 0xFFFD].
Proof. reflexivity. Qed.

Example buffer_payload :
  payload_text (PBuffer (Buffer_from sample_checkout)) = sample_checkout.
Proof. vm_compute. reflexivity. Qed.

Example JSON_parse_values :
  JSON.parse (jsq " {'a':[true,null,-1.5e3],'b':'x\u0041'} ")
  = Some (JObject (<[js "a" := JArray [JBool true; JNull; JNumber (js "-1.5e3")]]>
                  (<[js "b" := JString (js "xA")]> ∅)))
  ∧ JSON.parse (jsq "{'a':1,'a':2}") = Some (JObject (<[js "a" := JNumber (js "2")]> ∅)).
Proof. vm_compute. split; reflexivity. Qed.

Example JSON_parse_syntax_errors :
  Forall (fun text => JSON.parse text = None)
    [[]; js "not json"; js "[1,]"; js "01"; js "1."; js "{a:1}";
     jsq "{'a':1,}"; jsq "{'a' 1}"; jsq "'a"; js "[1] 2"; js "nul"].
Proof. repeat constructor. Qed.

Example camelKey_values :
  camelKey (js "last_transaction_id") = js "lastTransactionId"
  ∧ camelKey (js "created_at") = js "createdAt"
  ∧ camelKey (js "createdAt") = js "createdAt"
  ∧ camelKey (js "object") = js "object".
Proof. vm_compute. repeat split. Qed.

(** * Signature verification *)


Lemma be_bytes_octets (n : nat) (x : N) : Forall (fun b => b < 256) (SHA256.be_bytes n x).
Proof.
  induction n as [| n IH]; simpl; constructor; [| done].
  change 255 with (N.ones 8). rewrite N.land_ones.
  apply N.mod_lt. done.
Qed.

Lemma digest_octets (msg : bytes) : Forall (fun b => b < 256) (SHA256.digest msg).
Proof.
  unfold SHA256.digest.
  generalize (fold_left SHA256.compress
    (SHA256.chunks 64 (length (SHA256.pad msg) / 64) (SHA256.pad msg)) SHA256.H0).
  intros words. induction words as [| w words IH]; [constructor |].
  cbn [map concat]. apply Forall_app_2; [apply be_bytes_octets | done].
Qed.

Lemma hmac_octets (key msg : bytes) : Forall (fun b => b < 256) (hmac_sha256 key msg).
Proof. apply digest_octets. Qed.

Lemma hex_digit_ascii (n : N) : n < 16 → hex_digit n < 0x80.
Proof. intros Hn. unfold hex_digit. destruct (n <? 10); lia. Qed.

Lemma hex_encode_ascii (b : bytes) :
  Forall (fun x => x < 256) b → ascii_only (hex_encode b).
Proof.
  induction 1 as [| x b Hx _ IH]; [constructor |].
  unfold hex_encode. simpl. constructor; [| constructor; [| exact IH]].
  - apply hex_digit_ascii. apply N.Div0.div_lt_upper_bound. lia.
  - apply hex_digit_ascii. apply N.mod_lt. done.
Qed.

Lemma generateSignature_ascii (payload secret : jsstring) :
  ascii_only (generateSignature payload secret).
Proof. apply hex_encode_ascii, hmac_octets. Qed.

(** An ASCII string is its own UTF-8 encoding. *)
Lemma Buffer_from_ascii (s : jsstring) : ascii_only s → Buffer_from s = s.
Proof.
  induction 1 as [| c s Hc _ IH]; [done |].
  simpl. unfold is_high_surrogate, is_low_surrogate, utf8_of_code_point.
  destruct (N.leb_spec 0xD800 c); [lia |].
  destruct (N.leb_spec 0xDC00 c); [lia |].
  destruct (N.ltb_spec c 0x80); [| lia]. simpl. by rewrite IH.
Qed.

Lemma lead_octet_not_ascii (a b : N) : 0x80 ≤ a → a + b < 0x80 → False.
Proof. lia. Qed.

Lemma utf8_of_code_point_head (cp : N) :
  match utf8_of_code_point cp with
  | b :: _ => b < 0x80 → utf8_of_code_point cp = [cp] ∧ cp < 0x80
  | [] => False
  end.
Proof.
  unfold utf8_of_code_point.
  destruct (N.ltb_spec cp 0x80); [done |].
  destruct (N.ltb_spec cp 0x800);
    [intros Hb; exfalso; by eapply lead_octet_not_ascii, Hb |].
  destruct (N.ltb_spec cp 0x10000);
    intros Hb; exfalso; by eapply lead_octet_not_ascii, Hb.
Qed.

(** Only an ASCII string encodes to ASCII octets, and then to itself. *)
Lemma Buffer_from_ascii_inv (s h : jsstring) :
  ascii_only h → Buffer_from s = h → s = h.
Proof.
  intros Hh. revert s. induction Hh as [| x h Hx _ IH]; intros s.
  - destruct s as [| c rest]; [done |]. simpl.
    destruct (is_high_surrogate c).
    { destruct rest as [| d rest']; [done |].
      destruct (is_low_surrogate d); [| done].
      pose proof (utf8_of_code_point_head (65536 + (c - 55296) * 1024 + (d - 56320))).
      by destruct (utf8_of_code_point _). }
    destruct (is_low_surrogate c); [done |].
    pose proof (utf8_of_code_point_head c). by destruct (utf8_of_code_point c).
  - destruct s as [| c rest]; [done |]. simpl.
    destruct (is_high_surrogate c).
    { destruct rest as [| d rest']; [intros [= <-]; lia |].
      destruct (is_low_surrogate d); [| intros [= <-]; lia].
      pose proof (utf8_of_code_point_head (65536 + (c - 55296) * 1024 + (d - 56320))) as Hhead.
      destruct (utf8_of_code_point _) as [| b bs]; [done |].
      intros [= -> _]. destruct (Hhead Hx) as [_ ?]. lia. }
    destruct (is_low_surrogate c); [intros [= <-]; lia |].
    pose proof (utf8_of_code_point_head c) as Hhead.
    destruct (utf8_of_code_point c) as [| b bs]; [done |].
    intros [= -> Hrest]. destruct (Hhead Hx) as [[= -> ->] _].
    f_equal. by apply IH.
Qed.

(** [verifySignature] decides equality with the expected signature. *)
Lemma verifySignature_decides (payload signature secret : jsstring) :
  verifySignature payload signature secret
  = inr (bool_decide (signature = generateSignature payload secret)).
Proof.
  unfold verifySignature, verifySignature_using, timingSafeEqual.
  pose proof (generateSignature_ascii payload secret) as Hascii.
  set (expected := generateSignature payload secret) in *.
  rewrite (Buffer_from_ascii expected Hascii).
  destruct (decide (signature = expected)) as [-> | Hne].
  - rewrite (Buffer_from_ascii expected Hascii).
    by repeat (case_bool_decide; simpl).
  - assert (Buffer_from signature ≠ expected)
      by (intros H; by apply Buffer_from_ascii_inv in H).
    rewrite (bool_decide_eq_false_2 (signature = expected)) by done.
    case_bool_decide; simpl; [| done].
    by rewrite bool_decide_eq_false_2.
Qed.

Lemma flip_bit_differs (i : nat) (bit : N) (s : jsstring) :
  (i < length s)%nat → flip_bit i bit s ≠ s.
Proof.
  intros Hi Heq. apply lookup_lt_is_Some_2 in Hi as [c Hc].
  assert (flip_bit i bit s !! i = Some (N.lxor c (2 ^ bit))) as Hflip
    by (unfold flip_bit; by rewrite list_lookup_alter_eq, Hc).
  rewrite Heq, Hc in Hflip. injection Hflip as Hflip.
  assert (2 ^ bit = 0) as Hzero.
  { apply (f_equal (N.lxor c)) in Hflip.
    rewrite <- N.lxor_assoc, N.lxor_nilpotent, N.lxor_0_l in Hflip. done. }
  by apply N.pow_nonzero in Hzero.
Qed.

(** C1: for every payload and secret, [verifySignature] returns true on
    the lowercase hexadecimal encoding of the HMAC-SHA256 of the payload's
    bytes under the secret's bytes; it returns false on every other
    signature string, in particular on that encoding with any one bit of
    any one code unit inverted; when the supplied signature and that
    encoding differ in byte length it returns false whatever the byte-wise
    comparison would do (the comparison is not consulted); and it never
    throws. *)
Theorem verifySignature_correct (payload secret : jsstring) :
  let expected := hex_encode (hmac_sha256 (Buffer_from secret) (Buffer_from payload)) in
  verifySignature payload expected secret = inr true
  ∧ (∀ signature, signature ≠ expected →
       verifySignature payload signature secret = inr false)
  ∧ (∀ i bit, (i < length expected)%nat →
       verifySignature payload (flip_bit i bit expected) secret = inr false)
  ∧ (∀ signature compare,
       length (Buffer_from signature) ≠ length (Buffer_from expected) →
       verifySignature_using compare payload signature secret = inr false)
  ∧ (∀ signature, ∃ b, verifySignature payload signature secret = inr b).
Proof.
  cbn zeta.
  change (hex_encode (hmac_sha256 (Buffer_from secret) (Buffer_from payload)))
    with (generateSignature payload secret).
  repeat split.
  - rewrite verifySignature_decides. by rewrite bool_decide_eq_true_2.
  - intros signature Hne. rewrite verifySignature_decides.
    by rewrite bool_decide_eq_false_2.
  - intros i bit Hi. rewrite verifySignature_decides.
    rewrite bool_decide_eq_false_2; [done |]. by apply flip_bit_differs.
  - intros signature compare Hlen. unfold verifySignature_using.
    by rewrite bool_decide_eq_false_2.
  - intros signature. rewrite verifySignature_decides. eauto.
Qed.

(** * Entry point and dispatch *)

Section Dispatch.

Context {W : Type} (normalize : JSValue → JSValue).
Implicit Types (st : State W) (handlers : Handlers W).

(** The three entry checks, in the order they are made. *)
Lemma handleEvents_entry secret payload signature handlers st :
  handleEvents normalize secret payload signature handlers st =
  match secret with
  | None => (st, inl secret_not_configured)
  | Some s =>
      if bool_decide (s = []) then (st, inl secret_not_configured)
      else if bool_decide (signature = generateSignature (payload_text payload) s) then
        match parseWebhookEvent (payload_text payload) with
        | inl e => (st, inl e)
        | inr event => route event (normalize (get event (js "object"))) handlers st
        end
      else (st, inl invalid_signature)
  end.
Proof.
  unfold handleEvents. destruct secret as [s |]; [| done].
  unfold truthy. case_bool_decide; [done |]. cbn [negb].
  unfold mbind, M_bind, bind, lift. rewrite verifySignature_decides.
  case_bool_decide; [| done]. cbn [negb].
  by destruct (parseWebhookEvent (payload_text payload)).
Qed.

Lemma await_call_perform handlers name arg (k : M W unit) steps :
  (∀ st, k st = perform handlers steps st) →
  ∀ st, (await_call handlers name arg ≫= fun _ => k) st
        = perform handlers ((name, arg) :: steps) st.
Proof.
  intros Hk st. unfold mbind, M_bind, await_call. cbn [perform].
  destruct (handlers name) as [h |]; unfold bind, invoke, resume; [| apply Hk].
  destruct (h arg (world st)) as [w [e | []]]; [done | apply Hk].
Qed.

Lemma await_call_perform_last handlers name arg st :
  await_call handlers name arg st = perform handlers [(name, arg)] st.
Proof.
  unfold await_call. cbn [perform].
  destruct (handlers name) as [h |]; unfold bind, invoke, resume; [| done].
  by destruct (h arg (world st)) as [w [e | []]].
Qed.

(** The [switch] of the code follows the dispatch table. *)
Lemma route_table event data handlers st t :
  get event (js "eventType") = JString t →
  route event data handlers st =
  match table_row t with
  | Some row => perform handlers (row_steps event data row) st
  | None =>
      (mkState (world st) (log st ++ [Warned (js "Unknown webhook event type: " ++ t)])
               (resumed st), inr tt)
  end.
Proof.
  intros Ht. unfold route. rewrite Ht.
  unfold table_row, dispatch_table, switch, strict_eq_string, find, row_steps.
  cbn [fst snd pre_step then_invokes].
  repeat (case_bool_decide;
          [cbn -[event_argument access_argument perform js await_call mbind];
           first [apply await_call_perform_last
                 | apply await_call_perform; apply await_call_perform_last] |]).
  done.
Qed.

End Dispatch.

(** * The event parser *)

Lemma typeof_string (v : JSValue) :
  typeof v = js "string" ↔ ∃ s, v = JString s.
Proof.
  split; [| by intros [s ->]]. destruct v; try discriminate. eauto.
Qed.

Lemma typeof_number (v : JSValue) :
  typeof v = js "number" ↔ ∃ n, v = JNumber n.
Proof.
  split; [| by intros [n ->]]. destruct v; try discriminate. eauto.
Qed.

Lemma get_object (m : gmap jsstring JSValue) (name : jsstring) (v : JSValue) :
  m !! name = Some v → get (JObject m) name = v.
Proof. intros H. simpl. by rewrite H. Qed.

(** What [isWebhookEntity] accepts. *)
Lemma isWebhookEntity_spec (obj : JSValue) :
  isWebhookEntity obj = true ↔
  ∃ (m : gmap jsstring JSValue) s,
    obj = JObject m ∧ m !! js "object" = Some (JString s) ∧ s ∈ entity_types.
Proof.
  unfold isWebhookEntity. split.
  - destruct obj as [| | b | n | s | l | m]; try done;
      try (by destruct b); try (by simpl; destruct (mantissa_is_zero n));
      try (by simpl; case_bool_decide).
    cbn [truthy typeof negb orb]. rewrite bool_decide_eq_true_2 by done. cbn [negb].
    intros [Htype Hin]%andb_true_iff. apply bool_decide_eq_true in Htype.
    apply typeof_string in Htype as [s Hs]. rewrite Hs in Hin.
    apply bool_decide_eq_true in Hin. exists m, s. split; [done |]. split; [| done].
    unfold get in Hs. destruct (m !! js "object") as [v |]; cbn in Hs; by subst.
  - intros (m & s & -> & Hm & Hin). cbn [truthy typeof negb orb].
    rewrite bool_decide_eq_true_2 by done. cbn [negb].
    rewrite (get_object m _ _ Hm). cbn [typeof includes].
    by rewrite !bool_decide_eq_true_2.
Qed.

(** What [isWebhookEvent] accepts. *)
Lemma isWebhookEvent_spec (obj : JSValue) :
  isWebhookEvent obj = true ↔
  ∃ (m : gmap jsstring JSValue) t i n,
    obj = JObject m
    ∧ m !! js "eventType" = Some (JString t)
    ∧ m !! js "id" = Some (JString i)
    ∧ m !! js "created_at" = Some (JNumber n)
    ∧ ∃ entity, m !! js "object" = Some entity ∧ isWebhookEntity entity = true.
Proof.
  unfold isWebhookEvent. split.
  - destruct obj as [| | b | n | s | l | m]; try done;
      try (by destruct b); try (by simpl; destruct (mantissa_is_zero n));
      try (by simpl; case_bool_decide).
    cbn [truthy typeof negb orb]. rewrite bool_decide_eq_true_2 by done. cbn [negb].
    intros [[[[Ht Hi]%andb_true_iff Hn]%andb_true_iff Hobj]%andb_true_iff Hent]%andb_true_iff.
    apply bool_decide_eq_true in Ht, Hi, Hn.
    apply typeof_string in Ht as [t Ht], Hi as [i Hi].
    apply typeof_number in Hn as [n Hn].
    unfold get in Ht, Hi, Hn, Hent. unfold has_property in Hobj.
    exists m, t, i, n.
    destruct (m !! js "eventType") as [vt |]; [| done].
    destruct (m !! js "id") as [vi |]; [| done].
    destruct (m !! js "created_at") as [vn |]; [| done].
    destruct (m !! js "object") as [vo |] eqn:Ho; [| done].
    cbn in Ht, Hi, Hn, Hent. subst. eauto 10.
  - intros (m & t & i & n & -> & Ht & Hi & Hn & entity & Ho & Hent).
    cbn [truthy typeof negb orb]. rewrite bool_decide_eq_true_2 by done. cbn [negb].
    rewrite (get_object m _ _ Ht), (get_object m _ _ Hi), (get_object m _ _ Hn),
      (get_object m _ _ Ho), Hent.
    cbn [typeof has_property]. rewrite Ho.
    by rewrite !bool_decide_eq_true_2 by (done || eauto).
Qed.

Lemma parseWebhookEvent_inr (text : jsstring) (event : JSValue) :
  parseWebhookEvent text = inr event ↔
  JSON.parse text = Some event ∧ isWebhookEvent event = true.
Proof.
  unfold parseWebhookEvent. destruct (JSON.parse text) as [v |].
  - destruct (isWebhookEvent v) eqn:E; cbn [negb]; split.
    + by intros [= <-].
    + by intros [[= <-] _].
    + done.
    + intros [[= <-] H]. congruence.
  - split; [done | by intros [? _]].
Qed.

(** * Sequential dispatch *)

Section Sequencing.

Context {W : Type}.
Implicit Types (st : State W) (handlers : Handlers W)
  (steps : list (HandlerName * JSValue)).

(** When no registered handler throws, every step's registered handler is
    invoked, in order, and the sequence completes. *)
Lemma perform_completes handlers steps st :
  (∀ name h arg w, handlers name = Some h → (h arg w).2 = inr tt) →
  ∃ st', perform handlers steps st = (st', inr tt)
    ∧ log st' = log st ++ ((fun step => Invoked step.1 step.2)
                  <$> filter (fun step => is_Some (handlers step.1)) steps)
    ∧ resumed st' = (resumed st + length steps)%nat.
Proof.
  intros Hok. revert st. induction steps as [| [name arg] steps IH]; intros st.
  - exists st. simpl. by rewrite app_nil_r, Nat.add_0_r.
  - cbn [perform]. destruct (handlers name) as [h |] eqn:Hh.
    + specialize (Hok name h arg (world st) Hh).
      destruct (h arg (world st)) as [w [e | []]]; [done |].
      destruct (IH (mkState w (log st ++ [Invoked name arg]) (S (resumed st))))
        as (st' & -> & Hlog & Hres).
      exists st'. split; [done |]. cbn [log resumed] in Hlog, Hres.
      rewrite filter_cons_True by (simpl; by rewrite Hh).
      rewrite Hlog, Hres, <- app_assoc. simpl. split; [done | lia].
    + destruct (IH (mkState (world st) (log st) (S (resumed st))))
        as (st' & -> & Hlog & Hres).
      exists st'. split; [done |]. cbn [log resumed] in Hlog, Hres.
      rewrite filter_cons_False by (simpl; rewrite Hh; by intros [? ?]).
      rewrite Hlog, Hres. simpl. split; [done | lia].
Qed.

(** A handler that throws ends the sequence: the steps after it do not
    matter. *)
Lemma perform_stops handlers before name arg after st st1 h w e :
  perform handlers before st = (st1, inr tt) →
  handlers name = Some h →
  h arg (world st1) = (w, inl e) →
  perform handlers (before ++ (name, arg) :: after) st
  = (mkState w (log st1 ++ [Invoked name arg]) (resumed st1), inl e).
Proof.
  intros Hbefore Hh Hthrow. revert st Hbefore.
  induction before as [| [name' arg'] before IH]; intros st Hbefore.
  - injection Hbefore as ->. cbn [app perform]. by rewrite Hh, Hthrow.
  - cbn [app perform] in *. destruct (handlers name') as [h' |]; [| by apply IH].
    destruct (h' arg' (world st)) as [w' [e' | []]]; [done | by apply IH].
Qed.

(** A sequence that fails fails with what a registered handler threw, and
    that handler's invocation is the last entry of the log. *)
Lemma perform_failure handlers steps st st' e :
  perform handlers steps st = (st', inl e) →
  ∃ name h arg w pre,
    (name, arg) ∈ steps ∧ handlers name = Some h
    ∧ h arg w = (world st', inl e)
    ∧ log st' = log st ++ pre ++ [Invoked name arg].
Proof.
  revert st. induction steps as [| [name arg] steps IH]; intros st; [done |].
  cbn [perform]. destruct (handlers name) as [h |] eqn:Hh.
  - destruct (h arg (world st)) as [w [e' | []]] eqn:Hrun.
    + intros [= <- <-]. exists name, h, arg, (world st), [].
      repeat split; [apply list_elem_of_here | done | done].
    + intros (name' & h' & arg' & w' & pre & Hin & Hh' & Hrun' & Hlog)%IH.
      exists name', h', arg', w', (Invoked name arg :: pre).
      repeat split; [by apply list_elem_of_further | done | done |].
      cbn [log] in Hlog. by rewrite Hlog, <- app_assoc.
  - intros (name' & h' & arg' & w' & pre & Hin & Hh' & Hrun' & Hlog)%IH.
    exists name', h', arg', w', pre.
    repeat split; [by apply list_elem_of_further | done | done | done].
Qed.

End Sequencing.

(** * Verified envelopes *)

Section Envelope.

Context {W : Type} (normalize : JSValue → JSValue).
Implicit Types (st : State W) (handlers : Handlers W).

(** A verified, well-formed envelope reaches the dispatch table. *)
Lemma handleEvents_accepted (secret : jsstring) payload signature handlers event st :
  secret ≠ [] →
  verifySignature (payload_text payload) signature secret = inr true →
  parseWebhookEvent (payload_text payload) = inr event →
  ∃ t, get event (js "eventType") = JString t
    ∧ handleEvents normalize (Some secret) payload signature handlers st
      = match table_row t with
        | Some row =>
            perform handlers
              (row_steps event (normalize (get event (js "object"))) row) st
        | None =>
            (mkState (world st)
               (log st ++ [Warned (js "Unknown webhook event type: " ++ t)])
               (resumed st), inr tt)
        end.
Proof.
  intros Hsecret Hverify Hparse.
  pose proof Hparse as [_ Hevent]%parseWebhookEvent_inr.
  apply isWebhookEvent_spec in Hevent as (m & t & i & n & -> & Ht & _).
  exists t. split; [by apply get_object |].
  rewrite handleEvents_entry, Hparse, bool_decide_eq_false_2 by done.
  rewrite verifySignature_decides in Hverify. injection Hverify as ->.
  apply route_table. by apply get_object.
Qed.

(** C2: [handleEvents] checks the secret first (an absent or empty secret
    fails with the configuration error, whatever the signature and the
    payload), then the signature (a signature that does not verify fails
    with the signature error, whatever the payload), then parses (a
    payload that does not parse fails with the parser's error).  Each of
    these failures is raised with the state untouched: no handler has
    been invoked and no [await] has resumed.  Whenever a call adds
    anything to the log, the secret was configured, the signature
    verified and the payload parsed. *)
Theorem entry_checks_precede_handlers secret payload signature handlers st :
  (secret = None ∨ secret = Some [] →
     handleEvents normalize secret payload signature handlers st
     = (st, inl secret_not_configured))
  ∧ (∀ s, secret = Some s → s ≠ [] →
       verifySignature (payload_text payload) signature s ≠ inr true →
       handleEvents normalize secret payload signature handlers st
       = (st, inl invalid_signature))
  ∧ (∀ s e, secret = Some s → s ≠ [] →
       verifySignature (payload_text payload) signature s = inr true →
       parseWebhookEvent (payload_text payload) = inl e →
       handleEvents normalize secret payload signature handlers st = (st, inl e))
  ∧ (log (handleEvents normalize secret payload signature handlers st).1 ≠ log st →
       ∃ s event, secret = Some s ∧ s ≠ []
         ∧ verifySignature (payload_text payload) signature s = inr true
         ∧ parseWebhookEvent (payload_text payload) = inr event).
Proof.
  rewrite handleEvents_entry. repeat split.
  - by intros [-> | ->].
  - intros s -> Hs Hverify. rewrite verifySignature_decides in Hverify.
    rewrite bool_decide_eq_false_2 by done. case_bool_decide; [congruence | done].
  - intros s e -> Hs Hverify Hparse. rewrite verifySignature_decides in Hverify.
    rewrite bool_decide_eq_false_2 by done. injection Hverify as ->. by rewrite Hparse.
  - destruct secret as [s |]; [| done]. case_bool_decide; [done |].
    case_bool_decide as Hsig; [| done].
    destruct (parseWebhookEvent (payload_text payload)) as [e | event] eqn:Hparse; [done |].
    intros _. exists s, event. rewrite verifySignature_decides.
    by rewrite bool_decide_eq_true_2.
Qed.

Lemma get_object_spread listed data key :
  get (object_spread listed data) key =
  match own_enumerable data !! key with
  | Some v => v
  | None => default JUndefined ((list_to_map (reverse listed) : gmap jsstring JSValue) !! key)
  end.
Proof.
  unfold object_spread, get.
  destruct (own_enumerable data !! key) as [v |] eqn:Hown.
  - by rewrite (lookup_union_Some_l _ _ _ _ Hown).
  - by rewrite (lookup_union_r _ _ _ Hown).
Qed.

(** C3, amended: for a verified, well-formed envelope of event type [t],
    [handleEvents] does what the row of [t] in the dispatch table says:
    the access-control handler of the row is awaited to completion before
    the specific-event handler is called on the world it left; an
    unregistered handler is skipped and the rest of the row still runs;
    when no registered handler throws, the call completes and the log
    gains exactly the invocations of the row's registered handlers, in
    table order.  For an event type that is not in the table the call
    completes with a warning and no invocation.  The access-control
    handler is called with the row's reason as the wrapper field of its
    argument: the argument's [reason] is the row's reason whenever the
    normalized entity has no key [reason] of its own. *)
Theorem dispatch_follows_table (secret : jsstring) payload signature handlers event st :
  secret ≠ [] →
  verifySignature (payload_text payload) signature secret = inr true →
  parseWebhookEvent (payload_text payload) = inr event →
  ∃ t, get event (js "eventType") = JString t ∧
    let data := normalize (get event (js "object")) in
    let result := handleEvents normalize (Some secret) payload signature handlers st in
    (∀ row, table_row t = Some row →
       result = perform handlers (row_steps event data row) st
       ∧ ((∀ name h arg w, handlers name = Some h → (h arg w).2 = inr tt) →
            result.2 = inr tt
            ∧ log result.1
              = log st ++ ((fun step => Invoked step.1 step.2)
                  <$> filter (fun step => is_Some (handlers step.1))
                        (row_steps event data row))))
    ∧ (table_row t = None →
         result = (mkState (world st)
                     (log st ++ [Warned (js "Unknown webhook event type: " ++ t)])
                     (resumed st), inr tt))
    ∧ (∀ reason, own_enumerable data !! js "reason" = None →
         get (access_argument reason data) (js "reason") = JString reason).
Proof.
  intros Hsecret Hverify Hparse.
  destruct (handleEvents_accepted secret payload signature handlers event st
              Hsecret Hverify Hparse) as (t & Ht & Hrun).
  exists t. split; [done |]. cbn zeta. rewrite Hrun. split; [| split].
  - intros row ->. split; [done |]. intros Hok.
    by destruct (perform_completes handlers
      (row_steps event (normalize (get event (js "object"))) row) st Hok)
      as (st' & -> & Hlog & _).
  - by intros ->.
  - intros reason Hown. unfold access_argument.
    by rewrite get_object_spread, Hown.
Qed.

(** C4: for a verified, well-formed envelope, a handler that throws stops
    the dispatch: the steps of the row after it are not run, its
    invocation is the last entry of the log, and the value it threw is
    the failure of [handleEvents], unchanged; every failure of such a
    call is one thrown by a registered handler.  In particular, for
    [subscription.active] with an [onGrantAccess] that throws,
    [onSubscriptionActive] is not invoked. *)
Theorem handler_failure_stops_dispatch (secret : jsstring) payload signature
    handlers event st :
  secret ≠ [] →
  verifySignature (payload_text payload) signature secret = inr true →
  parseWebhookEvent (payload_text payload) = inr event →
  let data := normalize (get event (js "object")) in
  let result := handleEvents normalize (Some secret) payload signature handlers st in
  (∀ t row before name arg after h st1 w e,
     get event (js "eventType") = JString t →
     table_row t = Some row →
     row_steps event data row = before ++ (name, arg) :: after →
     perform handlers before st = (st1, inr tt) →
     handlers name = Some h →
     h arg (world st1) = (w, inl e) →
     result = (mkState w (log st1 ++ [Invoked name arg]) (resumed st1), inl e))
  ∧ (∀ st' e, result = (st', inl e) →
       ∃ name h arg w pre,
         handlers name = Some h ∧ h arg w = (world st', inl e)
         ∧ log st' = log st ++ pre ++ [Invoked name arg])
  ∧ (∀ h w e,
       get event (js "eventType") = JString (js "subscription.active") →
       handlers onGrantAccess = Some h →
       h (access_argument (js "subscription_active") data) (world st) = (w, inl e) →
       result
       = (mkState w
            (log st ++ [Invoked onGrantAccess
                          (access_argument (js "subscription_active") data)])
            (resumed st), inl e)).
Proof.
  intros Hsecret Hverify Hparse.
  destruct (handleEvents_accepted secret payload signature handlers event st
              Hsecret Hverify Hparse) as (t & Ht & Hrun).
  cbn zeta. rewrite Hrun. repeat split.
  - intros t' row before name arg after h st1 w e Ht' Hrow Hsteps Hbefore Hh Hthrow.
    rewrite Ht in Ht'. injection Ht' as <-. rewrite Hrow, Hsteps.
    by apply (perform_stops handlers before name arg after st st1 h w e).
  - intros st' e. destruct (table_row t) as [row |]; [| done].
    intros (name & h & arg & w & pre & _ & Hh & Hthrow & Hlog)%perform_failure.
    by exists name, h, arg, w, pre.
  - intros h w e Ht' Hh Hthrow. rewrite Ht in Ht'. injection Ht' as ->.
    change (table_row (js "subscription.active"))
      with (Some (mkRow (Some (onGrantAccess, js "subscription_active"))
                        onSubscriptionActive)).
    by apply (perform_stops handlers [] onGrantAccess _ _ st st h w e).
Qed.

(** C6, amended: with a configured secret, a signature that does not
    verify fails with the error "Invalid webhook signature"; a verified
    payload that decodes to a value failing the structure check fails
    with the error "Invalid webhook event structure"; a verified payload
    that is not well-formed JSON fails with the [SyntaxError] of
    [JSON.parse].  In each case the state is untouched. *)
Theorem entry_failure_messages (secret : jsstring) payload signature handlers st :
  secret ≠ [] →
  (verifySignature (payload_text payload) signature secret ≠ inr true →
     handleEvents normalize (Some secret) payload signature handlers st
     = (st, inl (Error (js "Invalid webhook signature"))))
  ∧ (∀ v, verifySignature (payload_text payload) signature secret = inr true →
       JSON.parse (payload_text payload) = Some v →
       isWebhookEvent v = false →
       handleEvents normalize (Some secret) payload signature handlers st
       = (st, inl (Error (js "Invalid webhook event structure"))))
  ∧ (verifySignature (payload_text payload) signature secret = inr true →
       JSON.parse (payload_text payload) = None →
       handleEvents normalize (Some secret) payload signature handlers st
       = (st, inl SyntaxError)).
Proof.
  intros Hsecret. rewrite handleEvents_entry, bool_decide_eq_false_2 by done.
  rewrite verifySignature_decides. unfold parseWebhookEvent. repeat split.
  - intros Hverify. case_bool_decide; [congruence | done].
  - intros v [= ->] -> ->. done.
  - intros [= ->] ->. done.
Qed.

End Envelope.

(** * What the parser rejects and accepts *)

(** C5, amended: [parseWebhookEvent] rejects, returning no envelope: the
    empty text and every text that is not well-formed JSON (with the
    decoder's [SyntaxError]); and, with the error "Invalid webhook event
    structure", every decoded value whose [id] is not a string, whose
    [eventType] is not a string, whose [created_at] is not a number,
    whose [object] field is absent or not a mapping, or whose [object]'s
    type discriminator is absent, not a string, or not one of checkout,
    customer, order, product, subscription, refund, dispute,
    transaction. *)
Theorem parseWebhookEvent_rejects :
  parseWebhookEvent [] = inl SyntaxError
  ∧ (∀ text, JSON.parse text = None → parseWebhookEvent text = inl SyntaxError)
  ∧ (∀ text v, JSON.parse text = Some v →
       (∀ s, get v (js "id") ≠ JString s)
       ∨ (∀ s, get v (js "eventType") ≠ JString s)
       ∨ (∀ n, get v (js "created_at") ≠ JNumber n)
       ∨ has_property (js "object") v = false
       ∨ (∀ m, get v (js "object") ≠ JObject m)
       ∨ (∀ s, get (get v (js "object")) (js "object") = JString s → s ∉ entity_types) →
       parseWebhookEvent text = inl invalid_structure).
Proof.
  split; [done |]. split.
  - intros text Hparse. unfold parseWebhookEvent. by rewrite Hparse.
  - intros text v Hparse Hbad. unfold parseWebhookEvent. rewrite Hparse.
    destruct (isWebhookEvent v) eqn:Hevent; [exfalso | done].
    apply isWebhookEvent_spec in Hevent
      as (m & t & i & n & -> & Ht & Hi & Hn & entity & Ho & Hentity).
    apply isWebhookEntity_spec in Hentity as (obj & s & -> & Hs & Hin).
    rewrite (get_object m _ _ Ht), (get_object m _ _ Hi), (get_object m _ _ Hn),
      (get_object m _ _ Ho), (get_object obj _ _ Hs) in Hbad.
    cbn [has_property] in Hbad. rewrite Ho in Hbad.
    destruct Hbad as [H | [H | [H | [H | [H | H]]]]].
    + by apply (H i).
    + by apply (H t).
    + by apply (H n).
    + by rewrite bool_decide_eq_true_2 in H by eauto.
    + by apply (H obj).
    + by apply (H s).
Qed.


(** * The callback argument *)

Section Arguments.

Context {W : Type} (normalize : JSValue → JSValue).
Implicit Types (st : State W) (handlers : Handlers W).

(** What a sequence logs are invocations of its steps, with the arguments
    of the steps. *)
Lemma perform_invoked handlers (steps : list (HandlerName * JSValue)) st :
  ∃ new, log (perform handlers steps st).1 = log st ++ new
    ∧ ∀ name arg, Invoked name arg ∈ new → (name, arg) ∈ steps.
Proof.
  revert st. induction steps as [| [name arg] steps IH]; intros st.
  - exists []. cbn. rewrite app_nil_r. split; [done |].
    by intros name arg Hin%elem_of_nil.
  - cbn [perform]. destruct (handlers name) as [h |].
    + destruct (h arg (world st)) as [w [e | []]].
      * exists [Invoked name arg]. cbn. split; [done |].
        intros name' arg' Hin. apply list_elem_of_singleton in Hin.
        injection Hin as -> ->. apply list_elem_of_here.
      * destruct (IH (mkState w (log st ++ [Invoked name arg]) (S (resumed st))))
          as (new & Hlog & Hsteps).
        exists (Invoked name arg :: new). cbn [log] in Hlog.
        rewrite Hlog, <- app_assoc. split; [done |].
        intros name' arg' Hin. apply elem_of_cons in Hin as [Hin | Hin].
        -- injection Hin as -> ->. apply list_elem_of_here.
        -- apply list_elem_of_further. by apply Hsteps.
    + destruct (IH (mkState (world st) (log st) (S (resumed st))))
        as (new & Hlog & Hsteps).
      exists new. split; [done |].
      intros name' arg' Hin. apply list_elem_of_further. by apply Hsteps.
Qed.

(** Every invocation a call of [handleEvents] logs is a step of the row of
    an accepted delivery's event type. *)
Lemma handleEvents_invoked secret payload signature handlers st name arg :
  Invoked name arg
  ∈ added_log st (handleEvents normalize secret payload signature handlers st).1 →
  ∃ event t row,
    accepted secret payload signature event
    ∧ get event (js "eventType") = JString t
    ∧ table_row t = Some row
    ∧ (name, arg) ∈ row_steps event (normalize (get event (js "object"))) row.
Proof.
  unfold added_log. rewrite handleEvents_entry.
  assert (∀ P : Prop, Invoked name arg ∈ drop (length (log st)) (log st) → P) as Hnone.
  { intros P. rewrite drop_all. by intros Hin%elem_of_nil. }
  destruct secret as [s |]; [| apply Hnone].
  case_bool_decide as Hs; [apply Hnone |].
  case_bool_decide as Hsig; [| apply Hnone].
  destruct (parseWebhookEvent (payload_text payload)) as [e | event] eqn:Hparse;
    [apply Hnone |].
  pose proof Hparse as [_ Hevent]%parseWebhookEvent_inr.
  apply isWebhookEvent_spec in Hevent as (m & t & i & n & -> & Ht & _).
  apply get_object in Ht.
  rewrite (route_table (JObject m) _ handlers st t) by done.
  destruct (table_row t) as [row |] eqn:Hrow.
  - destruct (perform_invoked handlers
                (row_steps (JObject m) (normalize (get (JObject m) (js "object"))) row)
                st) as (new & -> & Hsteps).
    rewrite drop_app_length. intros Hin.
    exists (JObject m), t, row. split; [| split; [done | split; [done |]]].
    + exists s. split; [done |]. split; [done |]. split; [| done].
      by rewrite verifySignature_decides, bool_decide_eq_true_2.
    + by apply Hsteps.
  - cbn [fst log]. rewrite drop_app_length. intros Hin.
    apply list_elem_of_singleton in Hin. discriminate.
Qed.

End Arguments.

(** C9: the argument of every invocation that [handleEvents] makes, for
    every delivery and every handlers object, holds the wrapper fields
    with the normalized entity spread after them.  A top-level key of the
    normalized entity is therefore passed with the entity's value, also
    when it is named [webhookEventType], [webhookId], [webhookCreatedAt]
    or [reason]; the specific-event handler sees the envelope's
    [eventType], [id] and [created_at] under the wrapper names only where
    the entity has no key of that name, and the access-control handler
    sees the dispatcher's reason only where the entity has no key
    [reason].  Hence the handler's [webhookEventType] is not always the
    envelope's [eventType], nor the context's [reason] always the
    dispatcher's: the verified delivery [sample_spoofed], of type
    [subscription.active], reaches [onGrantAccess] and
    [onSubscriptionActive] with [reason] and [webhookEventType] both
    ["spoofed"]. *)
Theorem spread_lets_entity_override_wrapper :
  (∀ (W : Type) (normalize : JSValue → JSValue) secret payload signature
     (handlers : Handlers W) (st : State W) name arg,
     Invoked name arg
     ∈ added_log st (handleEvents normalize secret payload signature handlers st).1 →
     ∃ event t row,
       accepted secret payload signature event
       ∧ get event (js "eventType") = JString t
       ∧ table_row t = Some row
       ∧ (∀ key v,
            own_enumerable (normalize (get event (js "object"))) !! key = Some v →
            get arg key = v)
       ∧ (name = then_invokes row
          ∧ (own_enumerable (normalize (get event (js "object")))
               !! js "webhookEventType" = None →
             get arg (js "webhookEventType") = get event (js "eventType"))
          ∧ (own_enumerable (normalize (get event (js "object")))
               !! js "webhookId" = None →
             get arg (js "webhookId") = get event (js "id"))
          ∧ (own_enumerable (normalize (get event (js "object")))
               !! js "webhookCreatedAt" = None →
             get arg (js "webhookCreatedAt") = get event (js "created_at"))
          ∨ ∃ reason,
              pre_step row = Some (name, reason)
              ∧ (own_enumerable (normalize (get event (js "object")))
                   !! js "reason" = None →
                 get arg (js "reason") = JString reason)))
  ∧ (verifySignature sample_spoofed
       (generateSignature sample_spoofed sample_secret) sample_secret = inr true
     ∧ get (decoded sample_spoofed) (js "eventType")
       = JString (js "subscription.active")
     ∧ (handleEvents toCamelCase (Some sample_secret) (PString sample_spoofed)
          (generateSignature sample_spoofed sample_secret) all_return initial).2
       = inr tt
     ∧ argument_field (js "reason")
         <$> log (handleEvents toCamelCase (Some sample_secret) (PString sample_spoofed)
                    (generateSignature sample_spoofed sample_secret) all_return initial).1
       = [Some (onGrantAccess, JString (js "spoofed"));
          Some (onSubscriptionActive, JString (js "spoofed"))]
     ∧ argument_field (js "webhookEventType")
         <$> log (handleEvents toCamelCase (Some sample_secret) (PString sample_spoofed)
                    (generateSignature sample_spoofed sample_secret) all_return initial).1
       = [Some (onGrantAccess, JString (js "spoofed"));
          Some (onSubscriptionActive, JString (js "spoofed"))]).
Proof.
  split.
  - intros W normalize secret payload signature handlers st name arg Hin.
    apply handleEvents_invoked in Hin
      as (event & t & row & Haccepted & Ht & Hrow & Hstep).
    exists event, t, row.
    split; [done |]. split; [done |]. split; [done |].
    unfold row_steps in Hstep. apply elem_of_app in Hstep as [Hstep | Hstep].
    + destruct (pre_step row) as [[name' reason] |];
        [| by apply elem_of_nil in Hstep].
      apply list_elem_of_singleton, pair_equal_spec in Hstep as [-> ->]. split.
      * intros key v Hown. unfold access_argument.
        by rewrite get_object_spread, Hown.
      * right. exists reason. split; [done |]. intros Hown.
        unfold access_argument. by rewrite get_object_spread, Hown.
    + apply list_elem_of_singleton, pair_equal_spec in Hstep as [-> ->]. split.
      * intros key v Hown. unfold event_argument.
        by rewrite get_object_spread, Hown.
      * left. split; [done |]. unfold event_argument.
        repeat split; intros Hown; by rewrite get_object_spread, Hown.
  - vm_compute. repeat split.
Qed.

(** * Induction over nested values *)

Lemma jsize_elem (v : JSValue) (l : list JSValue) :
  v ∈ l → (jsize v < jsize (JArray l))%nat.
Proof.
  simpl. induction 1 as [x l | x y l _ IH]; simpl; lia.
Qed.

Lemma jsize_prop (m : gmap jsstring JSValue) (k : jsstring) (v : JSValue) :
  m !! k = Some v → (jsize v < jsize (JObject m))%nat.
Proof.
  intros Hk. simpl. rewrite map_fold_foldr.
  apply elem_of_map_to_list in Hk.
  induction (map_to_list m) as [| [k' v'] l IH]; [by apply elem_of_nil in Hk |].
  apply elem_of_cons in Hk as [[= <- <-] | Hk]; simpl; [lia |].
  specialize (IH Hk). lia.
Qed.

(** The induction principle the nested type calls for. *)
Lemma JSValue_deep_ind (P : JSValue → Prop) :
  P JUndefined → P JNull → (∀ b, P (JBool b)) →
  (∀ n, P (JNumber n)) → (∀ s, P (JString s)) →
  (∀ l, Forall P l → P (JArray l)) →
  (∀ m : gmap jsstring JSValue, map_Forall (fun _ => P) m → P (JObject m)) →
  ∀ v, P v.
Proof.
  intros Hu Hn Hb Hnum Hs Ha Ho.
  cut (∀ n v, (jsize v < n)%nat → P v); [intros H v; by apply (H (S (jsize v))); lia |].
  induction n as [| n IH]; intros v Hv; [lia |].
  destruct v as [| | b | num | s | l | m]; auto.
  - apply Ha, Forall_forall. intros x Hx. apply IH.
    pose proof (jsize_elem x l Hx). lia.
  - apply Ho. intros k x Hk. apply IH.
    pose proof (jsize_prop m k x Hk). lia.
Qed.

(** * The field normalizer *)

Section KeyMap.

Context {A : Type} (f : jsstring → jsstring).
Implicit Types m : gmap jsstring A.

Lemma kmap_lookup_Some m k' v' :
  (kmap f m : gmap jsstring A) !! k' = Some v' → ∃ k, k' = f k ∧ m !! k = Some v'.
Proof.
  unfold kmap. intros H%elem_of_list_to_map_2.
  apply list_elem_of_fmap in H as ([k v] & [= -> ->] & Hin).
  apply elem_of_map_to_list in Hin. eauto.
Qed.

Lemma kmap_fixed m :
  (∀ k v, m !! k = Some v → f k = k) → (kmap f m : gmap jsstring A) = m.
Proof.
  intros Hfix. unfold kmap.
  rewrite <- (list_to_map_to_list m) at 2. f_equal.
  rewrite <- (list_fmap_id (map_to_list m)) at 2.
  apply list_fmap_ext. intros i [k v] Hi. simpl.
  apply list_elem_of_lookup_2, elem_of_map_to_list in Hi.
  unfold prod_map; simpl. f_equal. eauto.
Qed.

Lemma kmap_keys m :
  (prod_map f id <$> map_to_list m).*1 = f <$> (map_to_list m).*1.
Proof.
  rewrite <- !list_fmap_compose. apply list_fmap_ext. by intros i [k v] _.
Qed.

Lemma kmap_size m :
  NoDup (f <$> (map_to_list m).*1) → size (kmap f m : gmap jsstring A) = size m.
Proof.
  intros Hnd. unfold kmap.
  rewrite map_size_list_to_map by (by rewrite kmap_keys).
  by rewrite length_fmap, length_map_to_list.
Qed.

Lemma kmap_lookup_renamed m k v :
  NoDup (f <$> (map_to_list m).*1) → m !! k = Some v → (kmap f m : gmap jsstring A) !! f k = Some v.
Proof.
  intros Hnd Hk. unfold kmap.
  apply elem_of_list_to_map; [by rewrite kmap_keys |].
  apply list_elem_of_fmap. exists (k, v). split; [done |].
  by apply elem_of_map_to_list.
Qed.

End KeyMap.

Lemma split_on_not_nil (sep : N) (s : jsstring) : split_on sep s ≠ [].
Proof.
  destruct s as [| c rest]; simpl; [done |].
  destruct (c =? sep); [done |]. by destruct (split_on sep rest).
Qed.

Lemma split_on_single (sep : N) (s w : jsstring) : split_on sep s = [w] → s = w.
Proof.
  revert w. induction s as [| c rest IH]; intros w; simpl.
  - by intros [= <-].
  - destruct (c =? sep).
    + intros [= <- H]. by apply split_on_not_nil in H.
    + destruct (split_on sep rest) as [| w' ws] eqn:E; [by apply split_on_not_nil in E |].
      intros [= <- ->]. f_equal. by apply IH.
Qed.

Lemma split_on_covers (sep x : N) (s : jsstring) :
  x ∈ s → x ≠ sep → ∃ w, w ∈ split_on sep s ∧ x ∈ w.
Proof.
  intros Hx Hsep. induction s as [| c rest IH]; [by apply elem_of_nil in Hx |].
  simpl. apply elem_of_cons in Hx as [-> | Hx].
  - destruct (N.eqb_spec c sep) as [? | _]; [done |].
    destruct (split_on sep rest) as [| w ws]; eexists; split; apply list_elem_of_here.
  - destruct (IH Hx) as (w & Hw & Hxw).
    destruct (c =? sep); [exists w; split; [by apply list_elem_of_further | done] |].
    destruct (split_on sep rest) as [| w' ws]; [by apply elem_of_nil in Hw |].
    apply elem_of_cons in Hw as [-> | Hw].
    + exists (c :: w'). split; [apply list_elem_of_here | by apply list_elem_of_further].
    + exists w. split; [by apply list_elem_of_further | done].
Qed.

(** A key with a character that is neither a lowercase letter nor an
    underscore is not in the wire convention. *)
Lemma is_wire_key_foreign (x : N) (key : jsstring) :
  x ∈ key → is_lower x = false → x ≠ 95 → is_wire_key key = false.
Proof.
  intros Hx Hlow Hsep. destruct (split_on_covers 95 x key Hx Hsep) as (w & Hw & Hxw).
  apply not_true_is_false. unfold is_wire_key. rewrite forallb_forall.
  intros Hall. specialize (Hall w (proj1 (list_elem_of_In _ _) Hw)).
  apply andb_true_iff in Hall as [_ Hall]. rewrite forallb_forall in Hall.
  specialize (Hall x (proj1 (list_elem_of_In _ _) Hxw)). congruence.
Qed.

Lemma camelKey_idempotent (key : jsstring) : camelKey (camelKey key) = camelKey key.
Proof.
  destruct (is_wire_key key) eqn:Hwire;
    [| unfold camelKey; by rewrite !Hwire].
  assert (Hfix : ∀ k, is_wire_key k = false → camelKey k = k)
    by (intros k Hk; unfold camelKey; by rewrite Hk).
  assert (Hkey : camelKey key =
                 match split_on 95 key with
                 | w :: ws => w ++ concat (capitalize <$> ws)
                 | [] => key
                 end) by (unfold camelKey; by rewrite Hwire).
  destruct (split_on 95 key) as [| w [| w1 ws]] eqn:Hsplit;
    [by apply split_on_not_nil in Hsplit | |].
  - apply split_on_single in Hsplit as <-.
    simpl in Hkey. rewrite app_nil_r in Hkey. by rewrite !Hkey.
  - rewrite Hkey. apply Hfix.
    unfold is_wire_key in Hwire. rewrite Hsplit in Hwire. simpl in Hwire.
    apply andb_true_iff in Hwire as [_ Hwire].
    apply andb_true_iff in Hwire as [Hw1 _].
    apply andb_true_iff in Hw1 as [Hne Hlow].
    destruct w1 as [| c r]; [done |]. simpl in Hlow.
    apply andb_true_iff in Hlow as [Hc _].
    assert (97 ≤ c ∧ c ≤ 122) as [H1 H2].
    { unfold is_lower in Hc. apply andb_true_iff in Hc as [H1 H2].
      apply N.leb_le in H1, H2. done. }
    apply (is_wire_key_foreign (c - 32)).
    + simpl. rewrite Hc. apply elem_of_app. right. apply list_elem_of_here.
    + unfold is_lower. apply andb_false_iff. left. apply N.leb_gt. lia.
    + lia.
Qed.

Lemma collision_free_props (m : gmap jsstring JSValue) (k : jsstring) (v : JSValue) :
  collision_free (JObject m) = true → m !! k = Some v → collision_free v = true.
Proof.
  simpl. intros [_ Hall]%andb_true_iff Hk.
  rewrite map_fold_foldr in Hall. apply elem_of_map_to_list in Hk.
  induction (map_to_list m) as [| [k' v'] l IH]; [by apply elem_of_nil in Hk |].
  simpl in Hall. apply andb_true_iff in Hall as [Hv Hall].
  apply elem_of_cons in Hk as [[= <- <-] | Hk]; auto.
Qed.

(** C7: the normalizer is idempotent: normalizing a normalized value
    changes nothing, for every value. *)
Theorem toCamelCase_idempotent (x : JSValue) : toCamelCase (toCamelCase x) = toCamelCase x.
Proof.
  induction x as [| | b | n | s | l IH | m IH] using JSValue_deep_ind; try done.
  - simpl. f_equal. rewrite map_map. apply map_ext_Forall, IH.
  - simpl. f_equal.
    set (m1 := kmap camelKey (toCamelCase <$> m) : gmap jsstring JSValue).
    assert (Hvals : toCamelCase <$> m1 = m1).
    { rewrite <- (map_fmap_id m1) at 2. apply map_fmap_ext. intros k' v' Hk'.
      apply kmap_lookup_Some in Hk' as (k & -> & Hk).
      apply lookup_fmap_Some in Hk as (v & <- & Hv). by apply (IH k v). }
    rewrite Hvals. apply kmap_fixed. intros k' v' Hk'.
    apply kmap_lookup_Some in Hk' as (k & -> & _). apply camelKey_idempotent.
Qed.

(** C8, amended: for every value in which no two keys of one mapping have
    the same converted form, the normalized value is the value with its
    keys renamed key for key: every mapping keeps its number of keys, each
    key is found again under its converted name with the normalized value
    of what it held, no other key appears, every sequence keeps its length
    and every scalar is unchanged. *)
Theorem toCamelCase_renames (x : JSValue) :
  collision_free x = true → renamed camelKey x (toCamelCase x).
Proof.
  induction x as [| | b | n | s | l IH | m IH] using JSValue_deep_ind;
    intros Hfree; try by constructor.
  - simpl. constructor. simpl in Hfree. rewrite forallb_forall in Hfree.
    induction l as [| v l IHl]; [constructor |].
    apply Forall_cons in IH as [Hv Hl]. constructor.
    + apply Hv, Hfree. by left.
    + apply IHl; [done |]. intros y Hy. apply Hfree. by right.
  - pose proof Hfree as Hfree'. simpl in Hfree'.
    apply andb_true_iff in Hfree' as [Hnd _]. apply bool_decide_eq_true in Hnd.
    assert (Hnd1 : NoDup (camelKey <$> (map_to_list (toCamelCase <$> m)).*1)).
    { replace ((map_to_list (toCamelCase <$> m)).*1) with ((map_to_list m).*1); [done |].
      rewrite map_to_list_fmap, <- list_fmap_compose.
      apply list_fmap_ext. by intros i [k v] _. }
    simpl. constructor.
    + by rewrite kmap_size, map_size_fmap.
    + intros k v Hk. exists (toCamelCase v). split.
      * apply kmap_lookup_renamed; [done |]. by rewrite lookup_fmap, Hk.
      * apply (IH k v Hk). by apply (collision_free_props m k v).
    + intros k' [v' Hk']. apply kmap_lookup_Some in Hk' as (k & -> & Hk).
      apply lookup_fmap_Some in Hk as (v & _ & Hv). exists k. eauto.
Qed.

(** * The theorems on sample deliveries *)

Lemma verifySignature_correct_witness :
  verifySignature (js "what do ya want for nothing?")
    (js "5bdcc146bf60754e6a042426089575c75a003f089d2739839dec58b964ec3843")
    (js "Jefe") = inr true
  ∧ verifySignature sample_checkout (js "deadbeef") sample_secret = inr false
  ∧ verifySignature sample_checkout
      (flip_bit 3 0
         (hex_encode (hmac_sha256 (Buffer_from sample_secret)
                        (Buffer_from sample_checkout))))
      sample_secret
    = inr false
  ∧ verifySignature_using (fun _ _ => inr true) sample_checkout (js "deadbeef")
      sample_secret = inr false.
Proof.
  split; [| split; [| split]].
  - destruct (verifySignature_correct (js "what do ya want for nothing?") (js "Jefe"))
      as (Hexpected & _).
    replace (js "5bdcc146bf60754e6a042426089575c75a003f089d2739839dec58b964ec3843")
      with (hex_encode (hmac_sha256 (Buffer_from (js "Jefe"))
                          (Buffer_from (js "what do ya want for nothing?"))))
      by (vm_compute; reflexivity).
    exact Hexpected.
  - destruct (verifySignature_correct sample_checkout sample_secret)
      as (_ & Hother & _).
    apply Hother. vm_compute. discriminate.
  - destruct (verifySignature_correct sample_checkout sample_secret)
      as (_ & _ & Hflip & _).
    apply Hflip. vm_compute. lia.
  - destruct (verifySignature_correct sample_checkout sample_secret)
      as (_ & _ & _ & Hlength & _).
    apply Hlength. vm_compute. lia.
Defined.

Lemma entry_checks_precede_handlers_witness :
  handleEvents toCamelCase (Some []) (PString sample_checkout) (js "deadbeef")
    all_return initial = (initial, inl secret_not_configured)
  ∧ handleEvents toCamelCase (Some sample_secret) (PString sample_no_discriminator)
      (js "deadbeef") all_return initial = (initial, inl invalid_signature)
  ∧ handleEvents toCamelCase (Some sample_secret) (PString sample_no_discriminator)
      (generateSignature sample_no_discriminator sample_secret) all_return initial
    = (initial, inl invalid_structure).
Proof.
  split; [| split].
  - destruct (entry_checks_precede_handlers toCamelCase (Some [])
                (PString sample_checkout) (js "deadbeef") all_return initial)
      as (Hconfig & _).
    apply Hconfig. by right.
  - destruct (entry_checks_precede_handlers toCamelCase (Some sample_secret)
                (PString sample_no_discriminator) (js "deadbeef") all_return initial)
      as (_ & Hsignature & _).
    apply (Hsignature sample_secret).
    + reflexivity.
    + by vm_compute.
    + by vm_compute.
  - destruct (entry_checks_precede_handlers toCamelCase (Some sample_secret)
                (PString sample_no_discriminator)
                (generateSignature sample_no_discriminator sample_secret)
                all_return initial)
      as (_ & _ & Hparse & _).
    apply (Hparse sample_secret).
    + reflexivity.
    + by vm_compute.
    + vm_compute. reflexivity.
    + vm_compute. reflexivity.
Defined.

Lemma dispatch_follows_table_witness :
  handleEvents toCamelCase (Some sample_secret) (PString sample_active)
    (generateSignature sample_active sample_secret) all_return initial
  = perform all_return
      [(onGrantAccess,
        access_argument (js "subscription_active")
          (toCamelCase (get (decoded sample_active) (js "object"))));
       (onSubscriptionActive,
        event_argument (decoded sample_active)
          (toCamelCase (get (decoded sample_active) (js "object"))))]
      initial.
Proof.
  assert (sample_secret ≠ []) as Hsecret by (by vm_compute).
  assert (verifySignature (payload_text (PString sample_active))
            (generateSignature sample_active sample_secret) sample_secret = inr true)
    as Hverify by (vm_compute; reflexivity).
  assert (parseWebhookEvent (payload_text (PString sample_active))
          = inr (decoded sample_active))
    as Hparse by (vm_compute; reflexivity).
  destruct (dispatch_follows_table toCamelCase sample_secret (PString sample_active)
              (generateSignature sample_active sample_secret) all_return
              (decoded sample_active) initial Hsecret Hverify Hparse)
    as (t & Ht & Hrow & _).
  assert (t = js "subscription.active") as ->
    by (vm_compute in Ht; by injection Ht as <-).
  apply (Hrow (mkRow (Some (onGrantAccess, js "subscription_active"))
                     onSubscriptionActive)).
  reflexivity.
Defined.

Lemma handler_failure_stops_dispatch_witness :
  handleEvents toCamelCase (Some sample_secret) (PString sample_active)
    (generateSignature sample_active sample_secret) grant_throws initial
  = (mkState tt
       [Invoked onGrantAccess
          (access_argument (js "subscription_active")
             (toCamelCase (get (decoded sample_active) (js "object"))))]
       0, inl (Error (js "grant failed"))).
Proof.
  assert (sample_secret ≠ []) as Hsecret by (by vm_compute).
  assert (verifySignature (payload_text (PString sample_active))
            (generateSignature sample_active sample_secret) sample_secret = inr true)
    as Hverify by (vm_compute; reflexivity).
  assert (parseWebhookEvent (payload_text (PString sample_active))
          = inr (decoded sample_active))
    as Hparse by (vm_compute; reflexivity).
  destruct (handler_failure_stops_dispatch toCamelCase sample_secret
              (PString sample_active)
              (generateSignature sample_active sample_secret) grant_throws
              (decoded sample_active) initial Hsecret Hverify Hparse)
    as (_ & _ & Hgrant).
  eapply Hgrant.
  - vm_compute. reflexivity.
  - reflexivity.
  - reflexivity.
Defined.

(** A verified [subscription.active] delivery whose subscription has a
    [reason] of its own: [onGrantAccess] is called with that reason, not
    with [subscription_active]. *)
Lemma grant_reason_taken_from_entity :
  verifySignature sample_spoofed
    (generateSignature sample_spoofed sample_secret) sample_secret = inr true
  ∧ parseWebhookEvent sample_spoofed = inr (decoded sample_spoofed)
  ∧ get (decoded sample_spoofed) (js "eventType") = JString (js "subscription.active")
  ∧ head (log (handleEvents toCamelCase (Some sample_secret) (PString sample_spoofed)
                 (generateSignature sample_spoofed sample_secret) all_return initial).1)
    = Some (Invoked onGrantAccess
              (access_argument (js "subscription_active")
                 (toCamelCase (get (decoded sample_spoofed) (js "object")))))
  ∧ get (access_argument (js "subscription_active")
           (toCamelCase (get (decoded sample_spoofed) (js "object"))))
        (js "reason")
    = JString (js "spoofed")
  ∧ JString (js "spoofed") ≠ JString (js "subscription_active").
Proof. vm_compute. repeat split. discriminate. Qed.

(** The envelope of the specification's own scenario has no [createdAt]
    and is accepted. *)
Lemma parse_accepts_without_createdAt :
  JSON.parse sample_checkout = Some (decoded sample_checkout)
  ∧ has_property (js "createdAt") (decoded sample_checkout) = false
  ∧ parseWebhookEvent sample_checkout = inr (decoded sample_checkout).
Proof. vm_compute. repeat split. Qed.

Lemma parseWebhookEvent_rejects_witness :
  parseWebhookEvent sample_not_json = inl SyntaxError
  ∧ parseWebhookEvent sample_createdAt = inl invalid_structure
  ∧ parseWebhookEvent sample_no_discriminator = inl invalid_structure.
Proof.
  destruct parseWebhookEvent_rejects as (_ & Hsyntax & Hstructure).
  split; [| split].
  - apply Hsyntax. vm_compute. reflexivity.
  - apply (Hstructure sample_createdAt (decoded sample_createdAt)).
    + vm_compute. reflexivity.
    + right. right. left. intros n. vm_compute. discriminate.
  - apply (Hstructure sample_no_discriminator (decoded sample_no_discriminator)).
    + vm_compute. reflexivity.
    + do 5 right. intros s. vm_compute. discriminate.
Defined.

(** A verified payload that is not JSON fails with the decoder's
    [SyntaxError], not with "Invalid webhook event structure". *)
Lemma unparseable_payload_raises_SyntaxError :
  verifySignature sample_not_json
    (generateSignature sample_not_json sample_secret) sample_secret = inr true
  ∧ JSON.parse sample_not_json = None
  ∧ handleEvents toCamelCase (Some sample_secret) (PString sample_not_json)
      (generateSignature sample_not_json sample_secret) all_return initial
    = (initial, inl SyntaxError)
  ∧ handleEvents toCamelCase (Some sample_secret) (PString sample_not_json)
      (generateSignature sample_not_json sample_secret) all_return initial
    ≠ (initial, inl (Error (js "Invalid webhook event structure"))).
Proof. vm_compute. repeat split. discriminate. Qed.

Lemma entry_failure_messages_witness :
  handleEvents toCamelCase (Some sample_secret) (PString sample_checkout)
    (js "deadbeef") all_return initial
  = (initial, inl (Error (js "Invalid webhook signature")))
  ∧ handleEvents toCamelCase (Some sample_secret) (PString sample_event_type)
      (generateSignature sample_event_type sample_secret) all_return initial
    = (initial, inl (Error (js "Invalid webhook event structure")))
  ∧ handleEvents toCamelCase (Some sample_secret) (PString sample_not_json)
      (generateSignature sample_not_json sample_secret) all_return initial
    = (initial, inl SyntaxError).
Proof.
  assert (sample_secret ≠ []) as Hsecret by (by vm_compute).
  split; [| split].
  - apply (entry_failure_messages toCamelCase sample_secret (PString sample_checkout)
             (js "deadbeef") all_return initial Hsecret).
    vm_compute. discriminate.
  - apply (entry_failure_messages toCamelCase sample_secret (PString sample_event_type)
             (generateSignature sample_event_type sample_secret) all_return
             initial Hsecret)
      with (v := decoded sample_event_type).
    + vm_compute. reflexivity.
    + vm_compute. reflexivity.
    + vm_compute. reflexivity.
  - apply (entry_failure_messages toCamelCase sample_secret (PString sample_not_json)
             (generateSignature sample_not_json sample_secret) all_return
             initial Hsecret).
    + vm_compute. reflexivity.
    + vm_compute. reflexivity.
Defined.

Lemma renamed_object_size (f : jsstring → jsstring) (m m' : gmap jsstring JSValue) :
  renamed f (JObject m) (JObject m') → size m' = size m.
Proof. by inversion 1. Qed.

(** The decoded value of [{"a_b":1,"aB":2}] has two keys and its
    normalization one. *)
Lemma colliding_keys_merge :
  JSON.parse (jsq "{'a_b':1,'aB':2}") = Some sample_collision
  ∧ size (own_enumerable sample_collision) = 2%nat
  ∧ size (own_enumerable (toCamelCase sample_collision)) = 1%nat
  ∧ ¬ renamed camelKey sample_collision (toCamelCase sample_collision).
Proof.
  split; [vm_compute; reflexivity |].
  split; [vm_compute; reflexivity |].
  split; [vm_compute; reflexivity |].
  intros H%renamed_object_size. vm_compute in H. discriminate.
Qed.

Lemma toCamelCase_renames_witness :
  renamed camelKey sample_nested (toCamelCase sample_nested).
Proof. apply (toCamelCase_renames sample_nested). vm_compute. reflexivity. Defined.

Lemma spread_lets_entity_override_wrapper_witness :
  (∀ arg,
     Invoked onGrantAccess arg
     ∈ added_log initial
         (handleEvents toCamelCase (Some sample_secret) (PString sample_spoofed)
            (generateSignature sample_spoofed sample_secret) all_return initial).1 →
     get arg (js "reason") = JString (js "spoofed"))
  ∧ (∀ arg,
       Invoked onGrantAccess arg
       ∈ added_log initial
           (handleEvents toCamelCase (Some sample_secret) (PString sample_active)
              (generateSignature sample_active sample_secret) all_return initial).1 →
       get arg (js "reason") = JString (js "subscription_active")
       ∧ get arg (js "customerId") = JString (js "cus_1"))
  ∧ (∀ arg,
       Invoked onCheckoutCompleted arg
       ∈ added_log initial
           (handleEvents toCamelCase (Some sample_secret) (PString sample_checkout)
              (generateSignature sample_checkout sample_secret) all_return initial).1 →
       get arg (js "webhookEventType") = JString (js "checkout.completed")
       ∧ get arg (js "webhookId") = JString (js "evt_1")
       ∧ get arg (js "webhookCreatedAt") = JNumber (js "1700000000")
       ∧ get arg (js "customerId") = JString (js "cus_1")).
Proof.
  destruct spread_lets_entity_override_wrapper as (Hlogged & _).
  split; [| split].
  - intros arg Hin.
    apply Hlogged in Hin as (event & t & row & Haccepted & _ & _ & Hown & _).
    destruct Haccepted as (s & _ & _ & _ & Hparse).
    assert (event = decoded sample_spoofed) as ->
      by (vm_compute in Hparse; by injection Hparse as <-).
    apply Hown. vm_compute. reflexivity.
  - intros arg Hin.
    apply Hlogged in Hin as (event & t & row & Haccepted & Ht & Hrow & Hown & Hfields).
    destruct Haccepted as (s & _ & _ & _ & Hparse).
    assert (event = decoded sample_active) as ->
      by (vm_compute in Hparse; by injection Hparse as <-).
    assert (t = js "subscription.active") as ->
      by (vm_compute in Ht; by injection Ht as <-).
    assert (row = mkRow (Some (onGrantAccess, js "subscription_active"))
                    onSubscriptionActive) as ->
      by (vm_compute in Hrow; by injection Hrow as <-).
    split.
    + destruct Hfields as [[Hname _] | (reason & Hreason & Hwrapper)];
        [discriminate Hname |].
      injection Hreason as <-. apply Hwrapper. vm_compute. reflexivity.
    + apply Hown. vm_compute. reflexivity.
  - intros arg Hin.
    apply Hlogged in Hin as (event & t & row & Haccepted & Ht & Hrow & Hown & Hfields).
    destruct Haccepted as (s & _ & _ & _ & Hparse).
    assert (event = decoded sample_checkout) as ->
      by (vm_compute in Hparse; by injection Hparse as <-).
    assert (t = js "checkout.completed") as ->
      by (vm_compute in Ht; by injection Ht as <-).
    assert (row = mkRow None onCheckoutCompleted) as ->
      by (vm_compute in Hrow; by injection Hrow as <-).
    destruct Hfields as [(_ & Htype & Hid & Hcreated) | (reason & Hreason & _)];
      [| discriminate Hreason].
    split; [| split; [| split]].
    + rewrite Htype; vm_compute; reflexivity.
    + rewrite Hid; vm_compute; reflexivity.
    + rewrite Hcreated; vm_compute; reflexivity.
    + apply Hown. vm_compute. reflexivity.
Defined.


(** * Strings and buffers: the round trip *)

Lemma lead_ascii (b : N) : b ≤ 0x7F → UTF8.lead b = ([b], UTF8.idle).
Proof. intros H. unfold UTF8.lead. by rewrite (proj2 (N.leb_le _ _) H). Qed.

Lemma lead_two (b : N) :
  0xC2 ≤ b → b ≤ 0xDF →
  UTF8.lead b
  = ([], {| UTF8.code_point := b - 0xC0; UTF8.due := 1;
            UTF8.lower := 0x80; UTF8.upper := 0xBF |}).
Proof.
  intros H1 H2. unfold UTF8.lead.
  rewrite (proj2 (N.leb_gt b 0x7F)) by lia.
  by rewrite (proj2 (N.leb_le _ _) H1), (proj2 (N.leb_le _ _) H2).
Qed.

Lemma lead_three (b : N) :
  0xE0 ≤ b → b ≤ 0xEF →
  UTF8.lead b
  = ([], {| UTF8.code_point := b - 0xE0; UTF8.due := 2;
            UTF8.lower := if b =? 0xE0 then 0xA0 else 0x80;
            UTF8.upper := if b =? 0xED then 0x9F else 0xBF |}).
Proof.
  intros H1 H2. unfold UTF8.lead.
  rewrite (proj2 (N.leb_gt b 0x7F)) by lia.
  rewrite (proj2 (N.leb_gt b 0xDF)) by lia. rewrite andb_false_r.
  by rewrite (proj2 (N.leb_le _ _) H1), (proj2 (N.leb_le _ _) H2).
Qed.

Lemma lead_four (b : N) :
  0xF0 ≤ b → b ≤ 0xF4 →
  UTF8.lead b
  = ([], {| UTF8.code_point := b - 0xF0; UTF8.due := 3;
            UTF8.lower := if b =? 0xF0 then 0x90 else 0x80;
            UTF8.upper := if b =? 0xF4 then 0x8F else 0xBF |}).
Proof.
  intros H1 H2. unfold UTF8.lead.
  rewrite (proj2 (N.leb_gt b 0x7F)) by lia.
  rewrite (proj2 (N.leb_gt b 0xDF)) by lia. rewrite andb_false_r.
  rewrite (proj2 (N.leb_gt b 0xEF)) by lia. rewrite andb_false_r.
  by rewrite (proj2 (N.leb_le _ _) H1), (proj2 (N.leb_le _ _) H2).
Qed.

Lemma step_continuation (st : UTF8.Pending) (b : N) (due' : nat) :
  UTF8.due st = S due' → UTF8.lower st ≤ b → b ≤ UTF8.upper st →
  UTF8.step st b
  = match due' with
    | O => ([UTF8.code_point st * 0x40 + (b - 0x80)], UTF8.idle)
    | S _ => ([], {| UTF8.code_point := UTF8.code_point st * 0x40 + (b - 0x80);
                     UTF8.due := due'; UTF8.lower := 0x80; UTF8.upper := 0xBF |})
    end.
Proof.
  intros Hdue H1 H2. unfold UTF8.step. rewrite Hdue.
  by rewrite (proj2 (N.leb_le _ _) H1), (proj2 (N.leb_le _ _) H2).
Qed.

Lemma code_points_cons (st : UTF8.Pending) (b : N) (rest : bytes) :
  UTF8.code_points st (b :: rest)
  = (UTF8.step st b).1 ++ UTF8.code_points (UTF8.step st b).2 rest.
Proof. cbn [UTF8.code_points]. by destruct (UTF8.step st b). Qed.

Lemma step_idle (b : N) : UTF8.step UTF8.idle b = UTF8.lead b.
Proof. reflexivity. Qed.

(** Decoding the encoding of a scalar value gives the scalar value back. *)
Lemma code_points_scalar (cp : N) (rest : bytes) :
  cp < 0xD800 ∨ (0xE000 ≤ cp ∧ cp < 0x110000) →
  UTF8.code_points UTF8.idle (utf8_of_code_point cp ++ rest)
  = cp :: UTF8.code_points UTF8.idle rest.
Proof.
  intros Hscalar. unfold utf8_of_code_point.
  destruct (N.ltb_spec cp 0x80) as [H1 | H1].
  { cbn [app]. by rewrite code_points_cons, step_idle, lead_ascii by lia. }
  destruct (N.ltb_spec cp 0x800) as [H2 | H2].
  { cbn [app]. rewrite code_points_cons, step_idle, lead_two by euclid.
    cbn [fst snd app]. rewrite code_points_cons.
    erewrite step_continuation; [| reflexivity | cbn; euclid | cbn; euclid].
    cbn [fst snd UTF8.code_point app]. f_equal. euclid. }
  destruct (N.ltb_spec cp 0x10000) as [H3 | H3].
  { cbn [app]. rewrite code_points_cons, step_idle, lead_three by euclid.
    cbn [fst snd app]. rewrite code_points_cons.
    erewrite step_continuation;
      [| reflexivity
       | cbn [UTF8.lower]; destruct (N.eqb_spec (0xE0 + cp / 0x1000) 0xE0); euclid
       | cbn [UTF8.upper]; destruct (N.eqb_spec (0xE0 + cp / 0x1000) 0xED); euclid].
    cbn [fst snd app]. rewrite code_points_cons.
    erewrite step_continuation; [| reflexivity | cbn; euclid | cbn; euclid].
    cbn [fst snd UTF8.code_point app]. f_equal. euclid. }
  cbn [app]. rewrite code_points_cons, step_idle, lead_four by euclid.
  cbn [fst snd app]. rewrite code_points_cons.
  erewrite step_continuation;
    [| reflexivity
     | cbn [UTF8.lower]; destruct (N.eqb_spec (0xF0 + cp / 0x40000) 0xF0); euclid
     | cbn [UTF8.upper]; destruct (N.eqb_spec (0xF0 + cp / 0x40000) 0xF4); euclid].
  cbn [fst snd app]. rewrite code_points_cons.
  erewrite step_continuation; [| reflexivity | cbn; euclid | cbn; euclid].
  cbn [fst snd app]. rewrite code_points_cons.
  erewrite step_continuation; [| reflexivity | cbn; euclid | cbn; euclid].
  cbn [fst snd UTF8.code_point app]. f_equal. euclid.
Qed.

Lemma surrogate_bounds (c : N) :
  (is_high_surrogate c = true ↔ 0xD800 ≤ c ∧ c ≤ 0xDBFF)
  ∧ (is_low_surrogate c = true ↔ 0xDC00 ≤ c ∧ c ≤ 0xDFFF).
Proof.
  unfold is_high_surrogate, is_low_surrogate.
  rewrite !andb_true_iff, !N.leb_le. done.
Qed.

(** [Buffer.from(s).toString("utf8")] is [s] for a well-formed string. *)
Lemma decode_Buffer_from (s : jsstring) :
  well_formed_utf16 s = true → UTF8.decode (Buffer_from s) = s.
Proof.
  unfold UTF8.decode.
  cut (∀ n s, (length s < n)%nat → well_formed_utf16 s = true →
       flat_map UTF8.utf16 (UTF8.code_points UTF8.idle (Buffer_from s)) = s);
    [intros H; by apply (H (S (length s))); lia |].
  clear s. induction n as [| n IH]; intros s Hlen Hwf; [lia |].
  destruct s as [| c rest]; [done |]. cbn [Buffer_from well_formed_utf16] in *.
  destruct (is_high_surrogate c) eqn:Hhigh.
  - destruct rest as [| d rest']; [done |].
    apply andb_true_iff in Hwf as [Hlow Hwf]. rewrite Hlow.
    apply surrogate_bounds in Hhigh, Hlow.
    rewrite code_points_scalar by lia. cbn [flat_map].
    rewrite IH by (done || (cbn [length] in Hlen; lia)).
    unfold UTF8.utf16. rewrite (proj2 (N.ltb_ge _ _)) by lia.
    cbn [app]. f_equal; [euclid |]. f_equal. euclid.
  - apply andb_true_iff in Hwf as [[Hlow Hbmp]%andb_true_iff Hwf].
    apply negb_true_iff in Hlow. rewrite Hlow. apply N.ltb_lt in Hbmp.
    assert (¬ (0xD800 ≤ c ∧ c ≤ 0xDBFF)) as Hh
      by (intros H%surrogate_bounds; congruence).
    assert (¬ (0xDC00 ≤ c ∧ c ≤ 0xDFFF)) as Hl
      by (intros H%surrogate_bounds; congruence).
    rewrite code_points_scalar by lia. cbn [flat_map].
    rewrite IH by (done || (cbn [length] in Hlen; lia)).
    unfold UTF8.utf16. by rewrite (proj2 (N.ltb_lt _ _) Hbmp).
Qed.

(** X1: A Buffer holding the UTF-8 encoding of a well-formed text is handled
    exactly as the text itself. *)
Theorem handleEvents_buffer_payload {W} (normalize : JSValue → JSValue)
    (secret : option jsstring) (text signature : jsstring)
    (handlers : Handlers W) (st : State W) :
  well_formed_utf16 text = true →
  payload_text (PBuffer (Buffer_from text)) = text
  ∧ handleEvents normalize secret (PBuffer (Buffer_from text)) signature handlers st
    = handleEvents normalize secret (PString text) signature handlers st.
Proof.
  intros Hwf. assert (payload_text (PBuffer (Buffer_from text)) = text) as Htext
    by (by apply decode_Buffer_from).
  split; [done |]. unfold handleEvents. by rewrite Htext.
Qed.

(** * The format of signatures *)

Lemma round_length (st : list N) (kw : N * N) :
  length (SHA256.round st kw) = length st.
Proof.
  unfold SHA256.round.
  do 9 (destruct st as [| ? st]; [reflexivity |]). reflexivity.
Qed.

Lemma compress_length (h : list N) (block : bytes) :
  length (SHA256.compress h block) = length h.
Proof.
  unfold SHA256.compress. rewrite length_zip_with.
  generalize (zip SHA256.K (SHA256.schedule block)). intros l.
  assert (length (fold_left SHA256.round l h) = length h) as ->; [| lia].
  revert h. induction l as [| kw l IH]; intros h; [done |].
  cbn [fold_left]. by rewrite IH, round_length.
Qed.

Lemma be_bytes_length (n : nat) (x : N) : length (SHA256.be_bytes n x) = n.
Proof. induction n as [| n IH]; [done |]. cbn [SHA256.be_bytes length]. by rewrite IH. Qed.

Lemma digest_length (msg : bytes) : length (SHA256.digest msg) = 32%nat.
Proof.
  unfold SHA256.digest.
  generalize (SHA256.chunks 64 (length (SHA256.pad msg) / 64) (SHA256.pad msg)).
  intros blocks.
  assert (length (fold_left SHA256.compress blocks SHA256.H0) = 8%nat) as Hwords.
  { assert (length SHA256.H0 = 8%nat) as <- by (vm_compute; reflexivity).
    generalize SHA256.H0. induction blocks as [| b blocks IH]; intros h; [done |].
    cbn [fold_left]. by rewrite IH, compress_length. }
  revert Hwords. generalize (fold_left SHA256.compress blocks SHA256.H0).
  intros words Hwords.
  assert (length (concat (map (SHA256.be_bytes 4) words)) = (4 * length words)%nat) as ->;
    [| lia].
  clear Hwords. induction words as [| w words IH]; [done |].
  cbn [map concat length]. rewrite length_app, be_bytes_length, IH. lia.
Qed.

Lemma hex_encode_length (b : bytes) : length (hex_encode b) = (2 * length b)%nat.
Proof.
  unfold hex_encode. induction b as [| x b IH]; [done |].
  cbn [flat_map app length]. rewrite IH. lia.
Qed.

Lemma hex_digit_lower (n : N) : n < 16 → is_hex_lower (hex_digit n) = true.
Proof.
  intros Hn. unfold hex_digit, is_hex_lower.
  destruct (N.ltb_spec n 10); apply orb_true_iff; [left | right];
    apply andb_true_iff; split; apply N.leb_le; lia.
Qed.

Lemma hex_encode_digits (b : bytes) :
  Forall (fun x => x < 256) b →
  Forall (fun c => is_hex_lower c = true) (hex_encode b).
Proof.
  induction 1 as [| x b Hx _ IH]; [constructor |].
  unfold hex_encode. cbn [flat_map app]. constructor; [| constructor; [| exact IH]].
  - apply hex_digit_lower. apply N.Div0.div_lt_upper_bound. lia.
  - apply hex_digit_lower. apply N.mod_lt. done.
Qed.

Lemma generateSignature_length (payload secret : jsstring) :
  length (generateSignature payload secret) = 64%nat.
Proof.
  unfold generateSignature. rewrite hex_encode_length. unfold hmac_sha256.
  rewrite digest_length. done.
Qed.

Lemma generateSignature_digits (payload secret : jsstring) :
  Forall (fun c => is_hex_lower c = true) (generateSignature payload secret).
Proof. unfold generateSignature. apply hex_encode_digits, hmac_octets. Qed.

(** X2: The expected signature is 64 lowercase hexadecimal digits, whatever
    the payload and the secret. *)
Theorem generateSignature_format (payload secret : jsstring) :
  length (generateSignature payload secret) = 64%nat
  ∧ Forall (fun c => is_hex_lower c = true) (generateSignature payload secret).
Proof.
  split.
  - apply generateSignature_length.
  - apply generateSignature_digits.
Qed.

(** X3: A signature that is not 64 lowercase hexadecimal digits never
    verifies: one of another length, in uppercase, or with a prefix such as
    [sha256=]. *)
Theorem verifySignature_rejects_malformed (payload signature secret : jsstring) :
  length signature ≠ 64%nat ∨ Exists (fun c => is_hex_lower c = false) signature →
  verifySignature payload signature secret = inr false.
Proof.
  intros Hbad. rewrite verifySignature_decides.
  rewrite bool_decide_eq_false_2; [done |]. intros ->.
  destruct Hbad as [Hbad | Hbad].
  - by rewrite generateSignature_length in Hbad.
  - apply Exists_exists in Hbad as (c & Hc & Hfalse).
    pose proof (generateSignature_digits payload secret) as Hdigits.
    rewrite Forall_forall in Hdigits. specialize (Hdigits c Hc). congruence.
Qed.

(** * What the type guards accept *)

(** X4: [isWebhookEntity] accepts exactly the objects whose property
    [object] is one of the eight entity type names; arrays, [null] and
    primitives are refused whatever they contain. *)
Theorem isWebhookEntity_exact (obj : JSValue) :
  (isWebhookEntity obj = true ↔
     ∃ (m : gmap jsstring JSValue) s,
       obj = JObject m ∧ m !! js "object" = Some (JString s) ∧ s ∈ entity_types)
  ∧ (∀ l, isWebhookEntity (JArray l) = false)
  ∧ (∀ s, isWebhookEntity (JString s) = false)
  ∧ isWebhookEntity JNull = false.
Proof.
  split; [apply isWebhookEntity_spec |]. split; [| split; [| done]].
  - intros l. apply not_true_is_false. by intros (m & s & [=] & _)%isWebhookEntity_spec.
  - intros s. apply not_true_is_false. by intros (m & s' & [=] & _)%isWebhookEntity_spec.
Qed.

(** X5: [parseWebhookEvent] returns the decoded value itself, and does so
    exactly when that value is an object with a string [eventType], a string
    [id], a number [created_at] and an entity under [object]; it fails with
    nothing but the decoder's [SyntaxError] or "Invalid webhook event
    structure". *)
Theorem parseWebhookEvent_exact (text : jsstring) :
  (∀ event,
     parseWebhookEvent text = inr event ↔
     JSON.parse text = Some event
     ∧ ∃ (m entity : gmap jsstring JSValue) t i n s,
         event = JObject m
         ∧ m !! js "eventType" = Some (JString t)
         ∧ m !! js "id" = Some (JString i)
         ∧ m !! js "created_at" = Some (JNumber n)
         ∧ m !! js "object" = Some (JObject entity)
         ∧ entity !! js "object" = Some (JString s)
         ∧ s ∈ entity_types)
  ∧ (∀ e, parseWebhookEvent text = inl e → e = SyntaxError ∨ e = invalid_structure).
Proof.
  split.
  - intros event. rewrite parseWebhookEvent_inr, isWebhookEvent_spec. split.
    + intros (Hparse & m & t & i & n & -> & Ht & Hi & Hn & entity & Ho & Hentity).
      apply isWebhookEntity_spec in Hentity as (obj & s & -> & Hs & Hin).
      split; [done |]. by exists m, obj, t, i, n, s.
    + intros (Hparse & m & entity & t & i & n & s & -> & Ht & Hi & Hn & Ho & Hs & Hin).
      split; [done |]. exists m, t, i, n. repeat split; try done.
      exists (JObject entity). split; [done |].
      apply isWebhookEntity_spec. by exists entity, s.
  - intros e. unfold parseWebhookEvent.
    destruct (JSON.parse text) as [v |]; [| intros [= <-]; by left].
    destruct (isWebhookEvent v); cbn [negb]; [done | intros [= <-]; by right].
Qed.

(** * What a call invokes *)

Lemma row_steps_names (event data : JSValue) (row : Row) :
  (row_steps event data row).*1 = row_names row.
Proof. unfold row_steps, row_names. by destruct (pre_step row) as [[name reason] |]. Qed.

(** Every row names one or two handlers, no handler twice, and an
    access-control handler only in the rows of its event types. *)
Lemma dispatch_table_rows :
  Forall (fun entry : jsstring * Row =>
            NoDup (row_names entry.2)
            ∧ (length (row_names entry.2) ≤ 2)%nat
            ∧ ¬ (onGrantAccess ∈ row_names entry.2 ∧ onRevokeAccess ∈ row_names entry.2)
            ∧ (onGrantAccess ∈ row_names entry.2 → entry.1 ∈ grant_event_types)
            ∧ (onRevokeAccess ∈ row_names entry.2 → entry.1 ∈ revoke_event_types))
         dispatch_table.
Proof. apply (bool_decide_unpack _). vm_compute. reflexivity. Qed.

Lemma table_row_entry (t : jsstring) (row : Row) :
  table_row t = Some row → (t, row) ∈ dispatch_table.
Proof.
  unfold table_row.
  destruct (find _ dispatch_table) as [[t' row'] |] eqn:Hfind; [| done].
  intros [= <-]. apply find_some in Hfind as [Hin Heq].
  apply bool_decide_eq_true in Heq. cbn [fst] in Heq. subst. by apply list_elem_of_In.
Qed.

Section Invocations.

Context {W : Type}.
Implicit Types (st : State W) (handlers : Handlers W)
  (steps : list (HandlerName * JSValue)).

(** A sequence only adds invocations to the log: of registered handlers,
    in the order of the steps. *)
Lemma perform_log handlers steps st :
  ∃ new, log (perform handlers steps st).1 = log st ++ new
    ∧ invoked_names new `sublist_of` steps.*1
    ∧ Forall (fun name => is_Some (handlers name)) (invoked_names new).
Proof.
  revert st. induction steps as [| [name arg] steps IH]; intros st.
  - exists []. cbn. rewrite app_nil_r. repeat split; constructor.
  - cbn [perform]. destruct (handlers name) as [h |] eqn:Hh.
    + destruct (h arg (world st)) as [w [e | []]].
      * exists [Invoked name arg]. cbn. repeat split.
        -- apply sublist_skip, sublist_nil_l.
        -- constructor; [by rewrite Hh | constructor].
      * destruct (IH (mkState w (log st ++ [Invoked name arg]) (S (resumed st))))
          as (new & Hlog & Hsub & Hreg).
        exists (Invoked name arg :: new). cbn [log] in Hlog.
        rewrite Hlog, <- app_assoc. repeat split.
        -- cbn. by apply sublist_skip.
        -- cbn. constructor; [by rewrite Hh | done].
    + destruct (IH (mkState (world st) (log st) (S (resumed st))))
        as (new & Hlog & Hsub & Hreg).
      exists new. repeat split; [done | | done]. cbn. by apply sublist_cons.
Qed.

(** A property of the world that every registered handler keeps is kept
    by a sequence. *)
Lemma perform_invariant (I : W → Prop) handlers steps st :
  (∀ name h arg w, handlers name = Some h → I w → I (h arg w).1) →
  I (world st) → I (world (perform handlers steps st).1).
Proof.
  intros Hkeep. revert st. induction steps as [| [name arg] steps IH]; intros st Hst;
    [done |].
  cbn [perform]. destruct (handlers name) as [h |] eqn:Hh; [| by apply IH].
  specialize (Hkeep name h arg (world st) Hh Hst).
  destruct (h arg (world st)) as [w [e | []]]; [done | by apply IH].
Qed.

(** A sequence reads the handlers object only at the names of its
    steps. *)
Lemma perform_local (handlers1 handlers2 : Handlers W) steps st :
  (∀ name, name ∈ steps.*1 → handlers1 name = handlers2 name) →
  perform handlers1 steps st = perform handlers2 steps st.
Proof.
  revert st. induction steps as [| [name arg] steps IH]; intros st Hsame; [done |].
  cbn [perform]. rewrite <- (Hsame name) by (cbn; apply list_elem_of_here).
  assert (∀ st', perform handlers1 steps st' = perform handlers2 steps st') as Hrest.
  { intros st'. apply IH. intros name' Hin. apply Hsame. cbn.
    by apply list_elem_of_further. }
  destruct (handlers1 name) as [h |]; [| apply Hrest].
  destruct (h arg (world st)) as [w [e | []]]; [done | apply Hrest].
Qed.

Context (normalize : JSValue → JSValue).

(** A registered handler at the head of a sequence is invoked, whatever
    it then does. *)
Lemma perform_first handlers name arg steps st :
  is_Some (handlers name) →
  name ∈ invoked_names (added_log st (perform handlers ((name, arg) :: steps) st).1).
Proof.
  intros [h Hh]. cbn [perform]. rewrite Hh. unfold added_log.
  destruct (h arg (world st)) as [w [e | []]].
  - cbn [fst log]. rewrite drop_app_length. apply list_elem_of_here.
  - destruct (perform_log handlers steps
                (mkState w (log st ++ [Invoked name arg]) (S (resumed st))))
      as (new & -> & _). cbn [log].
    rewrite <- app_assoc, drop_app_length. apply list_elem_of_here.
Qed.

(** Every call, whatever its input: either nothing is invoked, or the
    envelope was accepted and the invocations are among the handlers of
    the row of its event type, in the order of the row. *)
Lemma handleEvents_trace secret payload signature handlers st :
  ∃ new,
    log (handleEvents normalize secret payload signature handlers st).1 = log st ++ new
    ∧ Forall (fun name => is_Some (handlers name)) (invoked_names new)
    ∧ (invoked_names new = []
       ∨ ∃ event t row,
           accepted secret payload signature event
           ∧ get event (js "eventType") = JString t
           ∧ table_row t = Some row
           ∧ invoked_names new `sublist_of` row_names row).
Proof.
  assert (∃ new : list Event, log st = log st ++ new
            ∧ Forall (fun name => is_Some (handlers name)) (invoked_names new)
            ∧ (invoked_names new = []
               ∨ ∃ event t row,
                   accepted secret payload signature event
                   ∧ get event (js "eventType") = JString t
                   ∧ table_row t = Some row
                   ∧ invoked_names new `sublist_of` row_names row)) as Hnone.
  { exists []. rewrite app_nil_r. repeat split; [constructor | by left]. }
  rewrite handleEvents_entry.
  destruct secret as [s |]; [| exact Hnone].
  case_bool_decide as Hs; [exact Hnone |].
  case_bool_decide as Hsig; [| exact Hnone].
  destruct (parseWebhookEvent (payload_text payload)) as [e | event] eqn:Hparse;
    [exact Hnone |].
  pose proof Hparse as [_ Hevent]%parseWebhookEvent_inr.
  apply isWebhookEvent_spec in Hevent as (m & t & i & n & -> & Ht & _).
  rewrite (route_table (JObject m) _ handlers st t) by (by apply get_object).
  destruct (table_row t) as [row |] eqn:Hrow.
  - destruct (perform_log handlers
                (row_steps (JObject m) (normalize (get (JObject m) (js "object"))) row) st)
      as (new & Hlog & Hsub & Hreg).
    exists new. repeat split; [done | done |]. right.
    exists (JObject m), t, row. rewrite row_steps_names in Hsub.
    split; [| split; [by apply get_object | by split]].
    exists s. split; [done |]. split; [done |]. split; [| done].
    by rewrite verifySignature_decides, bool_decide_eq_true_2.
  - exists [Warned (js "Unknown webhook event type: " ++ t)].
    repeat split; [constructor | by left].
Qed.

(** A property of the world that every registered handler keeps is kept
    by a call. *)
Lemma perform_invariant_entry (I : W → Prop) secret payload signature handlers st :
  (∀ name h arg w, handlers name = Some h → I w → I (h arg w).1) →
  I (world st) →
  I (world (handleEvents normalize secret payload signature handlers st).1).
Proof.
  intros Hkeep Hst. rewrite handleEvents_entry.
  destruct secret as [s |]; [| done].
  case_bool_decide as Hs; [done |].
  case_bool_decide as Hsig; [| done].
  destruct (parseWebhookEvent (payload_text payload)) as [e | event] eqn:Hparse; [done |].
  pose proof Hparse as [_ Hevent]%parseWebhookEvent_inr.
  apply isWebhookEvent_spec in Hevent as (m & t & i & n & -> & Ht & _).
  rewrite (route_table (JObject m) _ handlers st t) by (by apply get_object).
  destruct (table_row t) as [row |]; [| done].
  by apply perform_invariant.
Qed.

(** X6: The handlers a call invokes, whatever its input: at most two, each
    registered, none twice, never both [onGrantAccess] and [onRevokeAccess];
    and the call only appends to the log. *)
Theorem handleEvents_invokes_at_most_two secret payload signature handlers st :
  let st' := (handleEvents normalize secret payload signature handlers st).1 in
  let names := invoked_names (added_log st st') in
  log st `prefix_of` log st'
  ∧ (length names ≤ 2)%nat
  ∧ NoDup names
  ∧ Forall (fun name => is_Some (handlers name)) names
  ∧ ¬ (onGrantAccess ∈ names ∧ onRevokeAccess ∈ names).
Proof.
  cbn zeta. unfold added_log.
  destruct (handleEvents_trace secret payload signature handlers st)
    as (new & -> & Hreg & Hnames).
  rewrite drop_app_length. split; [by apply prefix_app_r |].
  destruct Hnames as [-> | (event & t & row & _ & _ & Hrow & Hsub)].
  { repeat split; [cbn; lia | constructor | constructor |].
    by intros [[]%elem_of_nil _]. }
  apply table_row_entry in Hrow.
  pose proof (proj1 (Forall_forall _ _) dispatch_table_rows _ Hrow)
    as (Hnodup & Hlen & Hexcl & _). cbn [snd] in *.
  repeat split.
  - apply sublist_length in Hsub. lia.
  - by apply (sublist_NoDup _ (row_names row)).
  - done.
  - intros [Hgrant Hrevoke]. apply Hexcl.
    split; by apply (elem_of_sublist (invoked_names new)).
Qed.

(** X7: [onGrantAccess] is invoked exactly when it is registered and the
    envelope was accepted with event type [subscription.active],
    [subscription.trialing] or [subscription.paid]; [onRevokeAccess] exactly
    when it is registered and the envelope was accepted with event type
    [subscription.paused] or [subscription.expired]. No other event type
    touches access: [subscription.canceled] does not revoke. *)
Theorem access_handlers_event_types secret payload signature handlers st :
  let st' := (handleEvents normalize secret payload signature handlers st).1 in
  let names := invoked_names (added_log st st') in
  (onGrantAccess ∈ names ↔
     is_Some (handlers onGrantAccess)
     ∧ ∃ event t, accepted secret payload signature event
         ∧ get event (js "eventType") = JString t ∧ t ∈ grant_event_types)
  ∧ (onRevokeAccess ∈ names ↔
       is_Some (handlers onRevokeAccess)
       ∧ ∃ event t, accepted secret payload signature event
           ∧ get event (js "eventType") = JString t ∧ t ∈ revoke_event_types).
Proof.
  cbn zeta.
  assert (∀ name types,
            Forall (fun entry : jsstring * Row =>
                      name ∈ row_names entry.2 → entry.1 ∈ types) dispatch_table →
            Forall (fun t => ∃ reason specific,
                      table_row t = Some (mkRow (Some (name, reason)) specific)) types →
            name ∈ invoked_names
              (added_log st (handleEvents normalize secret payload signature handlers st).1)
            ↔ is_Some (handlers name)
              ∧ ∃ event t, accepted secret payload signature event
                  ∧ get event (js "eventType") = JString t ∧ t ∈ types) as Hboth.
  { intros name types Honly Hrows. split.
    - unfold added_log.
      destruct (handleEvents_trace secret payload signature handlers st)
        as (new & -> & Hreg & Hnames).
      rewrite drop_app_length. intros Hin. split.
      { by apply (proj1 (Forall_forall _ _) Hreg). }
      destruct Hnames as [Hnil | (event & t & row & Hacc & Ht & Hrow & Hsub)].
      { rewrite Hnil in Hin. by apply elem_of_nil in Hin. }
      exists event, t. repeat split; [done | done |].
      apply table_row_entry in Hrow.
      apply (proj1 (Forall_forall _ _) Honly _ Hrow). cbn [snd].
      by apply (elem_of_sublist (invoked_names new)).
    - intros (Hreg & event & t & (s & -> & Hs & Hverify & Hparse) & Ht & Hin).
      destruct (handleEvents_accepted normalize s payload signature handlers event st
                  Hs Hverify Hparse) as (t' & Ht' & ->).
      rewrite Ht in Ht'. injection Ht' as <-.
      destruct (proj1 (Forall_forall _ _) Hrows _ Hin) as (reason & specific & ->).
      unfold row_steps. cbn [pre_step]. by apply perform_first. }
  split; apply Hboth.
  - eapply Forall_impl; [apply dispatch_table_rows |]. by intros entry (_ & _ & _ & H & _).
  - repeat constructor; by eexists _, _.
  - eapply Forall_impl; [apply dispatch_table_rows |]. by intros entry (_ & _ & _ & _ & H).
  - repeat constructor; by eexists _, _.
Qed.

(** X8: With handlers that do not throw, a call resolves exactly when the
    envelope was accepted: the secret is configured, the signature verifies
    and the payload parses. *)
Theorem handleEvents_resolves_iff_accepted secret payload signature handlers st :
  (∀ name h arg w, handlers name = Some h → (h arg w).2 = inr tt) →
  (handleEvents normalize secret payload signature handlers st).2 = inr tt
  ↔ ∃ event, accepted secret payload signature event.
Proof.
  intros Hok. split.
  - rewrite handleEvents_entry.
    destruct secret as [s |]; [| done].
    case_bool_decide as Hs; [done |].
    case_bool_decide as Hsig; [| done].
    destruct (parseWebhookEvent (payload_text payload)) as [e | event] eqn:Hparse; [done |].
    intros _. exists event, s. repeat split; [done | |done].
    by rewrite verifySignature_decides, bool_decide_eq_true_2.
  - intros (event & s & -> & Hs & Hverify & Hparse).
    destruct (handleEvents_accepted normalize s payload signature handlers event st
                Hs Hverify Hparse) as (t & _ & ->).
    destruct (table_row t) as [row |]; [| done].
    by destruct (perform_completes handlers
      (row_steps event (normalize (get event (js "object"))) row) st Hok)
      as (st' & -> & _).
Qed.

(** X9: With no handler registered a call is a no-op on the world for every
    input: nothing is invoked and the world is the one it started from; an
    accepted envelope resolves. *)
Theorem handleEvents_without_handlers secret payload signature handlers st :
  (∀ name, handlers name = None) →
  let result := handleEvents normalize secret payload signature handlers st in
  world result.1 = world st
  ∧ invoked_names (added_log st result.1) = []
  ∧ ((∃ event, accepted secret payload signature event) → result.2 = inr tt).
Proof.
  intros Hnone. cbn zeta. split; [| split].
  - apply (perform_invariant_entry (fun w => w = world st)); [| done].
    intros name h arg w Hh. by rewrite Hnone in Hh.
  - unfold added_log.
    destruct (handleEvents_trace secret payload signature handlers st)
      as (new & -> & Hreg & _).
    rewrite drop_app_length. destruct (invoked_names new) as [| name names]; [done |].
    apply Forall_cons in Hreg as [[h Hh] _]. by rewrite Hnone in Hh.
  - intros (event & s & -> & Hs & Hverify & Hparse).
    destruct (handleEvents_accepted normalize s payload signature handlers event st
                Hs Hverify Hparse) as (t & _ & ->).
    destruct (table_row t) as [row |]; [| done].
    assert (∀ name h arg w, handlers name = Some h → (h arg w).2 = inr tt) as Hok.
    { intros name h arg w Hh. by rewrite Hnone in Hh. }
    by destruct (perform_completes handlers
      (row_steps event (normalize (get event (js "object"))) row) st Hok)
      as (st' & -> & _).
Qed.

(** X17: A call reads the handlers object only at the handlers of the row of
    the delivery's event type: two handlers objects that agree there give
    the same call, whatever else they register. A delivery that is not
    accepted, or whose event type has no row, gives the same call for all
    handlers objects. *)
Theorem handleEvents_reads_only_row_handlers secret payload signature
    (handlers1 handlers2 : Handlers W) st :
  (∀ event t row name,
     parseWebhookEvent (payload_text payload) = inr event →
     get event (js "eventType") = JString t →
     table_row t = Some row →
     name ∈ row_names row →
     handlers1 name = handlers2 name) →
  handleEvents normalize secret payload signature handlers1 st
  = handleEvents normalize secret payload signature handlers2 st.
Proof.
  intros Hsame. rewrite !handleEvents_entry.
  destruct secret as [s |]; [| done].
  case_bool_decide as Hs; [done |].
  case_bool_decide as Hsig; [| done].
  destruct (parseWebhookEvent (payload_text payload)) as [e | event] eqn:Hparse; [done |].
  pose proof Hparse as [_ Hevent]%parseWebhookEvent_inr.
  apply isWebhookEvent_spec in Hevent as (m & t & i & n & -> & Ht & _).
  apply get_object in Ht.
  rewrite !(route_table (JObject m) _ _ st t) by done.
  destruct (table_row t) as [row |] eqn:Hrow; [| done].
  apply perform_local. intros name. rewrite row_steps_names.
  by apply (Hsame (JObject m) t row name).
Qed.

End Invocations.

(** * The API client *)

Section Requests.

Context {X URL Net : Type}.
Variable URL_new : jsstring → X + URL.
Variable searchParams_append : jsstring → jsstring → URL → URL.
Variable URL_toString : URL → jsstring.
Variable fetch : jsstring → RequestInit → Net → Net * (X + Response X).
Variable JSON_stringify : JSValue → jsstring.
Variable Number_toString : jsstring → jsstring.
Variable Number_truthy : jsstring → bool.
Variable toCamelCase : JSValue → JSValue.

Local Abbreviation request :=
  (createRequest URL_new searchParams_append URL_toString fetch JSON_stringify
     Number_toString Number_truthy toCamelCase).
Local Abbreviation request_body := (request_body JSON_stringify Number_truthy).
Local Abbreviation ToBoolean := (ToBoolean Number_truthy).
Local Abbreviation settle := (settle Number_toString Number_truthy toCamelCase).
Local Abbreviation with_query := (with_query searchParams_append Number_toString).
Local Abbreviation append_defined := (append_defined searchParams_append Number_toString).

Implicit Types (st : Wire Net) (url : URL) (response : Response X).

(** Settling a response does not touch the wire. *)
Lemma settle_pure response st :
  settle response st
  = (st, (settle response st).2).
Proof.
  unfold settle, await, platform, reject, resolve.
  destruct (ok response); cbn [negb]; [| done].
  destruct (status response =? 204); [done |].
  by destruct (json response).
Qed.

(** One call: the URL is made, then one request is sent, then the
    response is settled. *)
Lemma createRequest_run apiKey baseUrl method path data queryParams st :
  request apiKey baseUrl method path data queryParams st
  = match URL_new (baseUrl ++ path) with
    | inl x => (st, inl (Raise x))
    | inr url =>
        let target := URL_toString (with_query url queryParams) in
        let init :=
          mkRequestInit method (request_headers apiKey)
            (request_body data) in
        let answer := fetch target init (net st) in
        (mkWire answer.1 (sent st ++ [(target, init)]),
         match answer.2 with
         | inl x => inl (Raise x)
         | inr response =>
             (settle response
                (mkWire answer.1 (sent st ++ [(target, init)]))).2
         end)
    end.
Proof.
  unfold createRequest, await, platform, send.
  destruct (URL_new (baseUrl ++ path)) as [x | url]; [done |]. cbn zeta.
  destruct (fetch _ _ (net st)) as [n [x | response]]; [done |]. cbn [fst snd].
  by rewrite settle_pure.
Qed.

Lemma with_query_defined url entries :
  with_query url (Some entries)
  = with_query url (Some (filter (fun entry => is_undefined entry.2 = false) entries)).
Proof.
  unfold with_query. revert url.
  induction entries as [| [key value] entries IH]; intros url; [done |].
  cbn [foldl]. rewrite IH. unfold append_defined at 2. cbn [fst snd].
  destruct (is_undefined value) eqn:Hvalue; cbn [negb].
  - by rewrite filter_cons_False by (cbn; by rewrite Hvalue).
  - rewrite filter_cons_True by (cbn; by rewrite Hvalue).
    cbn [foldl]. unfold append_defined at 3. cbn [fst snd]. by rewrite Hvalue.
Qed.


(** X11: A call resolves exactly when the URL is one, the request was
    answered and the response is [ok]: to [{}] for status 204, whatever the
    body, and to the converted body otherwise. One request has then been
    sent. *)
Theorem request_resolves_iff apiKey baseUrl method path data queryParams st st' v :
  request apiKey baseUrl method path data queryParams st = (st', inr v)
  ↔ ∃ url response,
      URL_new (baseUrl ++ path) = inr url
      ∧ fetch (URL_toString (with_query url queryParams))
          (mkRequestInit method (request_headers apiKey)
             (request_body data))
          (net st) = (net st', inr response)
      ∧ sent st'
        = sent st ++ [(URL_toString (with_query url queryParams),
                       mkRequestInit method (request_headers apiKey)
                         (request_body data))]
      ∧ ok response = true
      ∧ (status response = 204 ∧ v = JObject ∅
         ∨ status response ≠ 204
           ∧ ∃ responseData, json response = inr responseData
               ∧ v = toCamelCase responseData).
Proof.
  rewrite createRequest_run.
  destruct (URL_new (baseUrl ++ path)) as [x | url].
  { split; [done |]. by intros (url & response & [=] & _). }
  cbn zeta.
  destruct (fetch _ _ (net st)) as [n [x | response]] eqn:Hfetch; cbn [fst snd].
  { split; [done |]. intros (url' & response & [= <-] & Hfetch' & _).
    by rewrite Hfetch in Hfetch'. }
  unfold settle.
  destruct (ok response) eqn:Hok; cbn [negb reject snd].
  2: { split; [done |].
       intros (url' & response' & [= <-] & Hfetch' & _ & Hok' & _).
       rewrite Hfetch in Hfetch'. injection Hfetch' as _ <-. congruence. }
  destruct (N.eqb_spec (status response) 204) as [Hstatus | Hstatus].
  - cbn [resolve snd]. split.
    + intros [= <- <-]. exists url, response. cbn [net sent].
      split; [done |]. split; [done |]. split; [done |]. split; [done |]. by left.
    + intros (url' & response' & [= <-] & Hfetch' & Hsent & _ & Hv).
      rewrite Hfetch in Hfetch'. injection Hfetch' as -> <-.
      destruct Hv as [[_ ->] | [Hnot _]]; [| done].
      destruct st' as [n' s']. cbn [net sent] in *. by rewrite Hsent.
  - unfold await, platform, resolve.
    destruct (json response) as [x | responseData] eqn:Hjson; cbn [snd].
    + split; [done |].
      intros (url' & response' & [= <-] & Hfetch' & _ & _ & Hv).
      rewrite Hfetch in Hfetch'. injection Hfetch' as _ <-.
      destruct Hv as [[Heq _] | (_ & d & Hd & _)]; [done | congruence].
    + split.
      * intros [= <- <-]. exists url, response. cbn [net sent].
        split; [done |]. split; [done |]. split; [done |]. split; [done |].
        right. split; [done |]. by exists responseData.
      * intros (url' & response' & [= <-] & Hfetch' & Hsent & _ & Hv).
        rewrite Hfetch in Hfetch'. injection Hfetch' as -> <-.
        destruct Hv as [[Heq _] | (_ & d & Hd & ->)]; [done |].
        rewrite Hjson in Hd. injection Hd as <-.
        destruct st' as [n' s']. cbn [net sent] in *. by rewrite Hsent.
Qed.

(** X12: A call sends at most one request. It sends none, and rejects with
    what [new URL] threw, when base and path do not make a URL; otherwise it
    sends exactly one, with the method given, the API key in the header
    [x-api-key], and a body only for truthy [data]: [undefined], [null],
    [false], [0] and the empty string are sent as no body. *)
Theorem request_sends_at_most_once apiKey baseUrl method path data queryParams st :
  let result := request apiKey baseUrl method path data queryParams st in
  (∀ x, URL_new (baseUrl ++ path) = inl x → result = (st, inl (Raise x)))
  ∧ (∀ url, URL_new (baseUrl ++ path) = inr url →
       ∃ init,
         sent result.1
         = sent st ++ [(URL_toString (with_query url queryParams), init)]
         ∧ init_method init = method
         ∧ (list_to_map (init_headers init) : gmap jsstring jsstring) !! js "x-api-key"
           = Some apiKey
         ∧ (ToBoolean data = false → init_body init = None)
         ∧ (ToBoolean data = true → init_body init = Some (JSON_stringify data))).
Proof.
  cbn zeta. rewrite createRequest_run. split.
  - by intros x ->.
  - intros url ->. cbn zeta. eexists. cbn [fst sent]. split; [reflexivity |].
    cbn [init_method init_headers init_body]. unfold request_body.
    repeat split.
    + by intros ->.
    + by intros ->.
Qed.

(** X13: Query parameters whose value is [undefined] are not sent: a call
    with them is the call without them, and a call whose parameters are all
    [undefined] is the call without parameters. *)
Theorem request_skips_undefined_params apiKey baseUrl method path data entries st :
  request apiKey baseUrl method path data (Some entries) st
  = request apiKey baseUrl method path data
      (Some (filter (fun entry => is_undefined entry.2 = false) entries)) st
  ∧ (Forall (fun entry => entry.2 = JUndefined) entries →
       request apiKey baseUrl method path data (Some entries) st
       = request apiKey baseUrl method path data None st).
Proof.
  split.
  - rewrite !createRequest_run.
    destruct (URL_new (baseUrl ++ path)) as [x | url]; [done |].
    by rewrite <- with_query_defined.
  - intros Hall. rewrite !createRequest_run.
    destruct (URL_new (baseUrl ++ path)) as [x | url]; [done |].
    rewrite with_query_defined.
    replace (filter (fun entry => is_undefined entry.2 = false) entries)
      with (@nil (jsstring * JSValue)); [done |].
    symmetry. induction Hall as [| [key value] rest Hvalue _ IH]; [done |].
    cbn [snd] in Hvalue. subst value. by rewrite filter_cons_False by (by cbn).
Qed.

End Requests.

(** * The subscriptions resource and the client *)

Section SubscriptionRequests.

Context {X Net : Type}.
Variable TypeError : X.
Variables required isString isArray : JSValue → jsstring → Raised X + unit.
Variable Number_toString : jsstring → jsstring.
Variable request : RequestFn X Net.

Local Abbreviation resource :=
  (subscriptionsResource TypeError required isString isArray Number_toString request).

Lemma and_then_inr {A} (r : Raised X + unit) (rest : Raised X + A) (a : A) :
  and_then r rest = inr a → r = inr tt ∧ rest = inr a.
Proof. by destruct r as [e | []]. Qed.

Lemma map_items_inr (items mapped : list JSValue) :
  map_items TypeError items = inr mapped →
  length mapped = length items
  ∧ ∀ i item, items !! i = Some item →
      wire_item TypeError item = inr (default JUndefined (mapped !! i)).
Proof.
  revert mapped. induction items as [| item items IH]; intros mapped.
  - intros [= <-]. split; [done |]. by intros i item' [=].
  - cbn [map_items]. destruct (wire_item TypeError item) as [e | first] eqn:Hfirst; [done |].
    destruct (map_items TypeError items) as [e | others]; [done |].
    intros [= <-]. destruct (IH others eq_refl) as [Hlen Hitems].
    split; [cbn; by rewrite Hlen |].
    intros [| i] item'; [by intros [= <-] | apply Hitems].
Qed.

(** The shape of what a method returns. *)
Lemma subscriptions_request_shape method params promise :
  resource method params = inr promise →
  let subscriptionId := get (JObject params) (js "subscriptionId") in
  required subscriptionId (js "subscriptionId") = inr tt
  ∧ isString subscriptionId (js "subscriptionId") = inr tt
  ∧ ∃ path data queryParams,
      promise = request (if method is Get then GET else POST) path data queryParams
      ∧ js "/v1/subscriptions" `prefix_of` path
      ∧ (method = Get →
           path = js "/v1/subscriptions" ∧ data = JUndefined
           ∧ queryParams = Some [(js "subscription_id", subscriptionId)])
      ∧ (method ≠ Get →
           js "/v1/subscriptions/" ++ ToString Number_toString subscriptionId
             `prefix_of` path
           ∧ queryParams = None ∧ ∃ props, data = JObject props).
Proof.
  cbn zeta. destruct method; cbn [subscriptionsResource].
  - intros (Hrequired & (HisString & <-%(inj inr))%and_then_inr)%and_then_inr.
    split; [done |]. split; [done |]. eexists _, _, _. split; [reflexivity |].
    split; [done |]. split; [done |]. done.
  - intros (Hrequired & (HisString & (_ & <-%(inj inr))%and_then_inr)%and_then_inr)
      %and_then_inr.
    split; [done |]. split; [done |]. eexists _, _, _. split; [reflexivity |].
    split; [| split; [done |]; intros _; split; [| split; [done | by eexists]]].
    + eexists (js "/" ++ _). reflexivity.
    + eexists. by rewrite <- app_assoc.
  - intros (Hrequired & (HisString & (_ & (_ & Hrest)%and_then_inr)%and_then_inr)
              %and_then_inr)%and_then_inr.
    destruct (wire_items _ _) as [e | items]; [done |]. apply (inj inr) in Hrest as <-.
    split; [done |]. split; [done |]. eexists _, _, _. split; [reflexivity |].
    split; [| split; [done |]; intros _; split; [| split; [done | by eexists]]].
    + eexists (js "/" ++ _). reflexivity.
    + eexists []. by rewrite app_nil_r.
  - intros (Hrequired & (HisString & (_ & (_ & (_ & <-%(inj inr))%and_then_inr)
              %and_then_inr)%and_then_inr)%and_then_inr)%and_then_inr.
    split; [done |]. split; [done |]. eexists _, _, _. split; [reflexivity |].
    split; [| split; [done |]; intros _; split; [| split; [done | by eexists]]].
    + eexists (js "/" ++ _). reflexivity.
    + eexists. by rewrite <- app_assoc.
Qed.

(** X14: A method that returns a promise has validated [subscriptionId] with
    [required] and [isString], and the promise is that of one request under
    [/v1/subscriptions]: a [GET] with the identifier as query parameter
    [subscription_id] and no body for [get], a [POST] with the identifier in
    the path and no query parameters for the others. *)
Theorem subscriptions_validate_then_request method params promise :
  resource method params = inr promise →
  let subscriptionId := get (JObject params) (js "subscriptionId") in
  required subscriptionId (js "subscriptionId") = inr tt
  ∧ isString subscriptionId (js "subscriptionId") = inr tt
  ∧ ∃ path data queryParams,
      promise = request (if method is Get then GET else POST) path data queryParams
      ∧ js "/v1/subscriptions" `prefix_of` path
      ∧ (method = Get →
           path = js "/v1/subscriptions" ∧ data = JUndefined
           ∧ queryParams = Some [(js "subscription_id", subscriptionId)])
      ∧ (method ≠ Get →
           js "/v1/subscriptions/" ++ ToString Number_toString subscriptionId
             `prefix_of` path
           ∧ queryParams = None ∧ ∃ props, data = JObject props).
Proof. apply subscriptions_request_shape. Qed.

(** X15: What [update] sends for [items]: nothing when [params.items] is
    [null] or [undefined]; otherwise [params.items] is an array without
    [null] or [undefined] elements, and the body holds an array of the same
    length whose element at each index has [id], [product_id], [price_id]
    and [units] set from the [id], [productId], [priceId] and [units] of the
    item at that index, and nothing else. *)
Theorem update_sends_items_in_wire_form params promise :
  resource Update params = inr promise →
  ∃ path body,
    promise = request POST path body None
    ∧ get body (js "update_behavior") = get (JObject params) (js "updateBehavior")
    ∧ (nullish (get (JObject params) (js "items")) = true
       ∧ get body (js "items") = JUndefined
       ∨ ∃ elems mapped,
           get (JObject params) (js "items") = JArray elems
           ∧ get body (js "items") = JArray mapped
           ∧ length mapped = length elems
           ∧ ∀ i item, elems !! i = Some item →
               nullish item = false
               ∧ mapped !! i
                 = Some (JObject
                     (<[js "id" := get item (js "id")]>
                      (<[js "product_id" := get item (js "productId")]>
                       (<[js "price_id" := get item (js "priceId")]>
                        (<[js "units" := get item (js "units")]> ∅)))))).
Proof.
  cbn [subscriptionsResource].
  intros (_ & (_ & (_ & (_ & Hrest)%and_then_inr)%and_then_inr)%and_then_inr)%and_then_inr.
  destruct (wire_items _ _) as [e | items] eqn:Hitems; [done |].
  apply (inj inr) in Hrest as <-.
  eexists _, _. split; [reflexivity |]. split; [done |].
  unfold wire_items in Hitems.
  destruct (get (JObject params) (js "items")) as [| | | | | elems |] eqn:Hfield;
    try done.
  - injection Hitems as <-. by left.
  - injection Hitems as <-. by left.
  - destruct (map_items TypeError elems) as [e | mapped] eqn:Hmap; [done |].
    injection Hitems as <-. right. exists elems, mapped.
    destruct (map_items_inr elems mapped Hmap) as [Hlen Helems].
    split; [done |]. split; [done |]. split; [done |].
    intros i item Hitem. specialize (Helems i item Hitem).
    unfold wire_item in Helems. destruct (nullish item); [done |].
    split; [done |]. injection Helems as Heq.
    assert (is_Some (mapped !! i)) as [v Hv].
    { apply lookup_lt_is_Some. rewrite Hlen. by apply lookup_lt_is_Some_1; eexists. }
    rewrite Hv in Heq |- *. cbn in Heq. by rewrite <- Heq.
Qed.

End SubscriptionRequests.

Section CreemClient.

Context {X URL Net W : Type}.
Context {Products Checkouts Customers Transactions Licenses Discounts : Type}.
Variable productsResource : RequestFn X Net → Products.
Variable checkoutsResource : RequestFn X Net → Checkouts.
Variable customersResource : RequestFn X Net → Customers.
Variable transactionsResource : RequestFn X Net → Transactions.
Variable licensesResource : RequestFn X Net → Licenses.
Variable discountsResource : RequestFn X Net → Discounts.
Variable URL_new : jsstring → X + URL.
Variable searchParams_append : jsstring → jsstring → URL → URL.
Variable URL_toString : URL → jsstring.
Variable fetch : jsstring → RequestInit → Net → Net * (X + Response X).
Variable JSON_stringify : JSValue → jsstring.
Variable Number_toString : jsstring → jsstring.
Variable Number_truthy : jsstring → bool.
Variable toCamelCase : JSValue → JSValue.
Variable TypeError : X.
Variables required isString isArray : JSValue → jsstring → Raised X + unit.

Local Abbreviation creem :=
  (createCreem (W := W) productsResource checkoutsResource customersResource
     transactionsResource licensesResource discountsResource
     URL_new searchParams_append URL_toString fetch JSON_stringify Number_toString
     Number_truthy toCamelCase TypeError required isString isArray).

(** X16: Every request of the client's subscriptions resource goes to the
    host the options select ([https://test-api.creem.io] exactly when
    [testMode] is [true], [https://api.creem.io] otherwise, also when
    [testMode] is omitted), under [/v1/subscriptions], with the client's API
    key in the header [x-api-key]; the promise a method returns sends that
    one request and no other, and none when host and path do not make a URL.
    A method returns that promise only after [required] and [isString] have
    accepted [subscriptionId]. *)
Theorem client_requests_use_host_and_key options method params promise st :
  subscriptions (creem options) method params = inr promise →
  (base_url options
   = if bool_decide (testMode options = Some true) then js "https://test-api.creem.io"
     else js "https://api.creem.io")
  ∧ required (get (JObject params) (js "subscriptionId")) (js "subscriptionId") = inr tt
  ∧ isString (get (JObject params) (js "subscriptionId")) (js "subscriptionId") = inr tt
  ∧ ∃ path queryParams,
      js "/v1/subscriptions" `prefix_of` path
      ∧ (∀ x, URL_new (base_url options ++ path) = inl x →
           promise st = (st, inl (Raise x)))
      ∧ (∀ url, URL_new (base_url options ++ path) = inr url →
           ∃ init,
             sent (promise st).1
             = sent st
               ++ [(URL_toString
                      (with_query searchParams_append Number_toString url queryParams),
                    init)]
             ∧ (list_to_map (init_headers init) : gmap jsstring jsstring)
                 !! js "x-api-key" = Some (apiKey options)).
Proof.
  intros Hpromise. split.
  { unfold base_url. by destruct (testMode options) as [[|] |]. }
  cbn [createCreem subscriptions] in Hpromise.
  destruct (subscriptions_request_shape _ _ _ _ _ _ _ _ _ Hpromise)
    as (Hrequired & HisString & path & data & queryParams & -> & Hprefix & _).
  split; [done |]. split; [done |].
  exists path, queryParams. split; [done |].
  rewrite createRequest_run. split.
  - by intros x ->.
  - intros url ->. cbn zeta. eexists. cbn [fst sent]. split; [reflexivity |]. done.
Qed.

End CreemClient.

(** * The further properties on sample inputs *)

Lemma handleEvents_buffer_payload_witness :
  payload_text (PBuffer (Buffer_from sample_unicode)) = sample_unicode
  ∧ handleEvents toCamelCase (Some sample_secret) (PBuffer (Buffer_from sample_unicode))
      (generateSignature sample_unicode sample_secret) all_return initial
    = handleEvents toCamelCase (Some sample_secret) (PString sample_unicode)
        (generateSignature sample_unicode sample_secret) all_return initial.
Proof.
  apply (handleEvents_buffer_payload toCamelCase (Some sample_secret) sample_unicode).
  vm_compute. reflexivity.
Defined.

Lemma verifySignature_rejects_malformed_witness :
  verifySignature sample_checkout (js "sha256=deadbeef") sample_secret = inr false
  ∧ verifySignature sample_checkout
      (js "DEADBEEFDEADBEEFDEADBEEFDEADBEEFDEADBEEFDEADBEEFDEADBEEFDEADBEEF")
      sample_secret = inr false.
Proof.
  split.
  - apply verifySignature_rejects_malformed. left. vm_compute. lia.
  - apply verifySignature_rejects_malformed. right. apply Exists_cons_hd.
    vm_compute. reflexivity.
Defined.

Lemma isWebhookEntity_exact_witness :
  ∃ (m : gmap jsstring JSValue) s,
    decoded (jsq "{'object':'refund','amount':5}") = JObject m
    ∧ m !! js "object" = Some (JString s) ∧ s ∈ entity_types.
Proof.
  destruct (isWebhookEntity_exact (decoded (jsq "{'object':'refund','amount':5}")))
    as (Hobject & _).
  apply Hobject. vm_compute. reflexivity.
Defined.

Lemma parseWebhookEvent_exact_witness :
  JSON.parse sample_checkout = Some (decoded sample_checkout).
Proof.
  destruct (parseWebhookEvent_exact sample_checkout) as (Haccepts & _).
  apply (Haccepts (decoded sample_checkout)). vm_compute. reflexivity.
Defined.

Lemma access_handlers_event_types_witness :
  onGrantAccess
  ∈ invoked_names
      (added_log initial
         (handleEvents toCamelCase (Some sample_secret) (PString sample_active)
            (generateSignature sample_active sample_secret) all_return initial).1).
Proof.
  destruct (access_handlers_event_types toCamelCase (Some sample_secret)
              (PString sample_active)
              (generateSignature sample_active sample_secret) all_return initial)
    as (Hgrant & _).
  apply Hgrant. split; [by eexists |].
  exists (decoded sample_active), (js "subscription.active"). split; [| split].
  - exists sample_secret. split; [reflexivity |]. split; [by vm_compute |].
    split; vm_compute; reflexivity.
  - vm_compute. reflexivity.
  - apply list_elem_of_here.
Defined.

Lemma handleEvents_resolves_iff_accepted_witness :
  (handleEvents toCamelCase (Some sample_secret) (PString sample_checkout)
     (generateSignature sample_checkout sample_secret) all_return initial).2 = inr tt.
Proof.
  apply (handleEvents_resolves_iff_accepted toCamelCase).
  - intros name h arg w [= <-]. reflexivity.
  - exists (decoded sample_checkout), sample_secret.
    split; [reflexivity |]. split; [by vm_compute |].
    split; vm_compute; reflexivity.
Defined.

Lemma handleEvents_without_handlers_witness :
  world (handleEvents toCamelCase (Some sample_secret) (PString sample_active)
           (generateSignature sample_active sample_secret) no_handlers initial).1 = tt
  ∧ invoked_names
      (added_log initial
         (handleEvents toCamelCase (Some sample_secret) (PString sample_active)
            (generateSignature sample_active sample_secret) no_handlers initial).1) = []
  ∧ (handleEvents toCamelCase (Some sample_secret) (PString sample_active)
       (generateSignature sample_active sample_secret) no_handlers initial).2 = inr tt.
Proof.
  destruct (handleEvents_without_handlers toCamelCase (Some sample_secret)
              (PString sample_active)
              (generateSignature sample_active sample_secret) no_handlers initial)
    as (Hworld & Hnames & Hresolves); [reflexivity |].
  split; [exact Hworld |]. split; [exact Hnames |].
  apply Hresolves. exists (decoded sample_active), sample_secret.
  split; [reflexivity |]. split; [by vm_compute |].
  split; vm_compute; reflexivity.
Defined.


Lemma request_resolves_iff_witness :
  ∃ st', sample_request POST (js "/v1/subscriptions/sub_1/cancel")
           (JObject ∅) None (mkWire [sample_no_content] [])
         = (st', inr (JObject ∅)).
Proof.
  exists (mkWire []
            [(js "https://api.creem.io/v1/subscriptions/sub_1/cancel",
              mkRequestInit POST (request_headers (js "creem_key"))
                (request_body sample_stringify sample_Number_truthy (JObject ∅)))]).
  apply (request_resolves_iff sample_URL_new sample_append sample_URL_toString
           sample_fetch sample_stringify sample_Number_toString sample_Number_truthy
           toCamelCase).
  exists (js "https://api.creem.io/v1/subscriptions/sub_1/cancel", []), sample_no_content.
  split; [vm_compute; reflexivity |]. split; [reflexivity |].
  split; [vm_compute; reflexivity |]. split; [reflexivity |].
  left. split; reflexivity.
Defined.

Lemma request_sends_at_most_once_witness :
  createRequest sample_URL_new sample_append sample_URL_toString sample_fetch
    sample_stringify sample_Number_toString sample_Number_truthy toCamelCase
    (js "creem_key") (js "api.creem.io") GET (js "/v1/subscriptions") JUndefined None
    (mkWire [sample_no_content] [])
  = (mkWire [sample_no_content] [], inl (Raise "TypeError"%string)).
Proof.
  destruct (request_sends_at_most_once sample_URL_new sample_append sample_URL_toString
              sample_fetch sample_stringify sample_Number_toString sample_Number_truthy
              toCamelCase
              (js "creem_key") (js "api.creem.io") GET (js "/v1/subscriptions")
              JUndefined None (mkWire [sample_no_content] []))
    as (Hinvalid & _).
  apply Hinvalid. vm_compute. reflexivity.
Defined.

Lemma request_skips_undefined_params_witness :
  sample_request GET (js "/v1/subscriptions") JUndefined
    (Some [(js "subscription_id", JUndefined)]) (mkWire [sample_not_found] [])
  = sample_request GET (js "/v1/subscriptions") JUndefined None
      (mkWire [sample_not_found] []).
Proof.
  destruct (request_skips_undefined_params sample_URL_new sample_append
              sample_URL_toString sample_fetch sample_stringify
              sample_Number_toString sample_Number_truthy
              toCamelCase (js "creem_key") (js "https://api.creem.io") GET
              (js "/v1/subscriptions") JUndefined
              [(js "subscription_id", JUndefined)] (mkWire [sample_not_found] []))
    as (_ & Hnone).
  apply Hnone. repeat constructor.
Defined.

Lemma subscriptions_validate_then_request_witness :
  ∃ path data queryParams,
    subscriptionsResource "TypeError"%string sample_validator sample_validator
      sample_validator sample_Number_toString sample_request Update sample_update
    = inr (sample_request POST path data queryParams)
    ∧ js "/v1/subscriptions/sub_1" `prefix_of` path.
Proof.
  destruct (subscriptions_validate_then_request "TypeError"%string sample_validator
              sample_validator sample_validator sample_Number_toString sample_request
              Update sample_update
              (sample_request POST (js "/v1/subscriptions/sub_1")
                 (object_literal
                    [(js "items",
                      JArray [object_literal
                                [(js "id", JString (js "it_1"));
                                 (js "product_id", JString (js "prod_1"));
                                 (js "price_id", JUndefined);
                                 (js "units", JNumber (js "2"))]]);
                     (js "update_behavior", JString (js "proration-none"))])
                 None))
    as (_ & _ & path & data & queryParams & Hpromise & _ & _ & Hpath).
  - vm_compute. reflexivity.
  - exists path, data, queryParams. split.
    + rewrite <- Hpromise. vm_compute. reflexivity.
    + by destruct Hpath as (Hprefix & _).
Defined.

Lemma update_sends_items_in_wire_form_witness :
  ∃ path body,
    subscriptionsResource "TypeError"%string sample_validator sample_validator
      sample_validator sample_Number_toString sample_request Update sample_update
    = inr (sample_request POST path body None)
    ∧ get body (js "update_behavior") = JString (js "proration-none").
Proof.
  destruct (update_sends_items_in_wire_form "TypeError"%string sample_validator
              sample_validator sample_validator sample_Number_toString sample_request
              sample_update
              (sample_request POST (js "/v1/subscriptions/sub_1")
                 (object_literal
                    [(js "items",
                      JArray [object_literal
                                [(js "id", JString (js "it_1"));
                                 (js "product_id", JString (js "prod_1"));
                                 (js "price_id", JUndefined);
                                 (js "units", JNumber (js "2"))]]);
                     (js "update_behavior", JString (js "proration-none"))])
                 None))
    as (path & body & Hpromise & Hbehavior & _).
  - vm_compute. reflexivity.
  - exists path, body. split.
    + rewrite <- Hpromise. vm_compute. reflexivity.
    + rewrite Hbehavior. vm_compute. reflexivity.
Defined.

Lemma client_requests_use_host_and_key_witness :
  base_url sample_options = js "https://test-api.creem.io".
Proof.
  destruct (client_requests_use_host_and_key
              (W := unit) (X := string)
              (fun _ => tt) (fun _ => tt) (fun _ => tt) (fun _ => tt) (fun _ => tt)
              (fun _ => tt)
              sample_URL_new sample_append sample_URL_toString sample_fetch
              sample_stringify sample_Number_toString sample_Number_truthy
              toCamelCase "TypeError"%string
              sample_validator sample_validator sample_validator sample_options
              Get sample_update
              (createRequest sample_URL_new sample_append sample_URL_toString
                 sample_fetch sample_stringify sample_Number_toString
                 sample_Number_truthy toCamelCase
                 (js "creem_key") (js "https://test-api.creem.io") GET
                 (js "/v1/subscriptions") JUndefined
                 (Some [(js "subscription_id", JString (js "sub_1"))]))
              (mkWire [sample_no_content] []))
    as (Hbase & _).
  - vm_compute. reflexivity.
  - rewrite Hbase. reflexivity.
Defined.

Lemma handleEvents_reads_only_row_handlers_witness :
  handleEvents toCamelCase (Some sample_secret) (PString sample_checkout)
    (generateSignature sample_checkout sample_secret) all_return initial
  = handleEvents toCamelCase (Some sample_secret) (PString sample_checkout)
      (generateSignature sample_checkout sample_secret) grant_throws initial.
Proof.
  apply handleEvents_reads_only_row_handlers.
  intros event t row name Hparse Ht Hrow Hname.
  assert (event = decoded sample_checkout) as ->
    by (vm_compute in Hparse; by injection Hparse as <-).
  assert (t = js "checkout.completed") as ->
    by (vm_compute in Ht; by injection Ht as <-).
  assert (row = mkRow None onCheckoutCompleted) as ->
    by (vm_compute in Hrow; by injection Hrow as <-).
  apply list_elem_of_singleton in Hname as ->. reflexivity.
Defined.
